(** * Package resolution and phase dispatch of gravity: a shallow embedding

    The development follows the Go sources: package [pack] (package
    resolution, configuration and unpacking) and package [update] (the
    dispatcher [fsmSpec] of the update state machine).  Go functions that
    return [(value, error)] become functions into [result]; callbacks that
    assign to captured variables become state transformers; the package
    service, the semantic-version library and the operating system are
    interfaces (type classes), as the sources only consume them. *)

From stdpp Require Import base strings list gmap pretty.
From Stdlib Require Import ZArith Lia Ascii.

Local Open Scope string_scope.
Local Open Scope list_scope.

(** ** Package [trace]: errors with a kind *)
Module trace.

(** An error value.  The first three constructors are the constructors of
    the trace package used by the sources, with their format string and
    the formatted arguments.  The last two are errors produced by a
    collaborator (semantic-version parser, package service, file system):
    [NotExist] when the error satisfies [os.IsNotExist] (a missing file or
    directory), [External] when it does not. *)
Inductive error : Type :=
| BadParameter (format : string) (args : list string)
| NotFound (format : string) (args : list string)
| Errorf (format : string) (args : list string)
| External (msg : string)
| NotExist (msg : string).

(** [(T, error)] with exactly one side set. *)
Inductive result (A : Type) : Type :=
| Ok (a : A)
| Err (e : error).
Global Arguments Ok {A} a.
Global Arguments Err {A} e.

(** [trace.Wrap] attaches a stack trace and keeps the error, its kind and
    its message; stack traces are not part of the model. *)
Definition Wrap (e : error) : error := e.

(** [trace.Wrap] applied to a possibly nil error: nil stays nil. *)
Definition WrapNil (e : option error) : option error :=
  match e with
  | Some e => Some (Wrap e)
  | None => None
  end.

(** [os.IsNotExist]: false on the errors of the trace package. *)
Definition IsNotExist (e : error) : bool :=
  match e with
  | NotExist _ => true
  | _ => false
  end.

(** [trace.IsNotFound]: a not-found error of the trace package, or any
    other error for which [os.IsNotExist] holds. *)
Definition IsNotFound (e : error) : bool :=
  match e with
  | NotFound _ _ => true
  | _ => IsNotExist e
  end.

Definition IsBadParameter (e : error) : bool :=
  match e with
  | BadParameter _ _ => true
  | _ => false
  end.

End trace.
Export trace(error, result, Ok, Err).

(** ** The semantic-version library (consumed interface) *)
Module semver.

(** The library is not part of the sources: its version type, its parser,
    its three-way comparison and its printer are parameters. *)
Class Lib : Type := {
  Version : Type;
  NewVersion : string -> result Version;
  Compare : Version -> Version -> Z;
  String : Version -> string
}.

(** Modelled from the spec: [LessThan] of the library, precedence of the
    receiver strictly below the argument, that is a comparison result
    below zero. *)
Definition LessThan `{Lib} (v w : Version) : bool := (Compare v w <? 0)%Z.

(** Modelled from the spec: comparison is a strict total order on
    semantic-version precedence.  Only these two consequences are used. *)
Class Laws `{Lib} : Prop := {
  Compare_flip : forall a b : Version, (Compare a b < 0)%Z <-> (0 < Compare b a)%Z;
  Compare_trans : forall a b c : Version,
    (Compare a b < 0)%Z -> (Compare b c < 0)%Z -> (Compare a c < 0)%Z
}.

(** Modelled from the spec: the order is total on precedence, so a third
    version lies above the lower or below the upper of two ordered
    versions. *)
Class Total `{Lib} : Prop := {
  Compare_between : forall a b c : Version,
    (Compare a c < 0)%Z -> (Compare a b < 0)%Z \/ (Compare b c < 0)%Z
}.

(** The [Metadata] field of a parsed version, read by [ProcessMetadata]. *)
Class WithMetadata `{Lib} : Type := {
  Metadata : Version -> string
}.

End semver.

(** ** Package [loc]: locators *)
Module loc.

Record Locator : Type := {
  Repository : string;
  Name : string;
  Version : string
}.

Global Instance Locator_eq_dec : EqDecision Locator.
Proof. solve_decision. Defined.

(** The placeholder version is a constant of package [loc] that the
    sources do not show. *)
Class Consts : Type := { ZeroVersionString : string }.

(** Modelled from the spec: [ZeroVersion] returns a Locator with the
    line's identity but a canonical placeholder version. *)
Definition ZeroVersion `{Consts} (l : Locator) : Locator :=
  {| Repository := Repository l; Name := Name l; Version := ZeroVersionString |}.

(** Modelled from the spec: the textual form of a Locator is
    [repository/name:version]. *)
Definition String (l : Locator) : string :=
  Repository l +:+ "/" +:+ Name l +:+ ":" +:+ Version l.

(** Modelled from the spec: semantic-version parsing of the version
    string, failing when it is not a valid semantic version. *)
Definition SemVer `{semver.Lib} (l : Locator) : result semver.Version :=
  semver.NewVersion (Version l).

End loc.

(** ** Package [storage] *)
Module storage.

(** Modelled from the spec: a PackageUpdate is a proposed transition with
    a From Locator and a To Locator. *)
Record PackageUpdate : Type := {
  From : loc.Locator;
  To : loc.Locator
}.

End storage.

(** ** Package [pack]: the package resolver *)
Module pack.
Import trace.

(** Byte streams handed to and returned by the package service. *)
Definition Reader : Type := list Byte.byte.

(** Modelled from the spec: a PackageEnvelope is a located package plus
    its label set (the manifest reference plays no role here). *)
Record PackageEnvelope : Type := {
  Locator : loc.Locator;
  RuntimeLabels : gmap string string
}.

Global Instance PackageEnvelope_eq_dec : EqDecision PackageEnvelope.
Proof. solve_decision. Defined.

(** Modelled from the spec: the label vocabulary; [config] holds the
    zero-version string of the owning line. *)
Definition ConfigLabel : string := "config".

(** Modelled from the spec: [installed] marks the active package of a
    line, [purpose] is free-form descriptive metadata, and the version
    metadata value [latest] is the sentinel resolved by
    [ProcessMetadata]. *)
Definition InstalledLabel : string := "installed".
Definition PurposeLabel : string := "purpose".
Definition LatestLabel : string := "latest".

(** Modelled from the spec: an envelope carries a label when its label set
    maps the key to the value. *)
Definition HasLabel (e : PackageEnvelope) (label value : string) : bool :=
  bool_decide (RuntimeLabels e !! label = Some value).

(** The PackageService capability, consumed by the resolver.  Reads leave
    the store as it is; [CreatePackage] returns the store it leaves
    behind.  The only creation option used by the sources is
    [WithLabels], so the option argument is the label set. *)
Class PackageService (Store : Type) : Type := {
  GetRepositories : Store -> result (list string);
  GetPackages : Store -> string -> result (list PackageEnvelope);
  ReadPackage : Store -> loc.Locator -> result (PackageEnvelope * Reader);
  CreatePackage : Store -> loc.Locator -> Reader -> gmap string string ->
                  Store * result PackageEnvelope
}.

Section Resolver.
Context {Store : Type} `{PackageService Store} `{semver.Lib} `{loc.Consts}.

(** A callback closes over variables of its caller and assigns to them:
    it is a transformer of that captured state, returning its error. *)
Definition callback (St : Type) : Type :=
  PackageEnvelope -> St -> St * option error.

(** The [for _, pkg := range packs] loop of [ForeachPackageInRepo]. *)
Fixpoint ForeachPackageInRepo_range {St : Type} (fn : callback St)
         (packs : list PackageEnvelope) (st : St) : St * option error :=
  match packs with
  | [] => (st, None)
  | pkg :: packs =>
      match fn pkg st with
      | (st, Some err) => (st, Some (Wrap err))
      | (st, None) => ForeachPackageInRepo_range fn packs st
      end
  end.

Definition ForeachPackageInRepo {St : Type} (packages : Store) (repo : string)
           (fn : callback St) (st : St) : St * option error :=
  match GetPackages packages repo with
  | Err err => (st, Some (Wrap err))
  | Ok packs => ForeachPackageInRepo_range fn packs st
  end.

(** The [for _, repo := range repos] loop of [ForeachPackage]. *)
Fixpoint ForeachPackage_range {St : Type} (packages : Store) (fn : callback St)
         (repos : list string) (st : St) : St * option error :=
  match repos with
  | [] => (st, None)
  | repo :: repos =>
      match ForeachPackageInRepo packages repo fn st with
      | (st, Some err) => (st, Some (Wrap err))
      | (st, None) => ForeachPackage_range packages fn repos st
      end
  end.

Definition ForeachPackage {St : Type} (packages : Store)
           (fn : callback St) (st : St) : St * option error :=
  match GetRepositories packages with
  | Err err => (st, Some (Wrap err))
  | Ok repos => ForeachPackage_range packages fn repos st
  end.

(** [FindPackage]: the captured variable is [env]; the callback assigns
    it at every envelope the predicate accepts and never fails.  Both
    components of the Go result are kept, since the function can return
    an envelope together with an enumeration error. *)
Definition FindPackage (packages : Store) (fn : PackageEnvelope -> bool)
  : option PackageEnvelope * option error :=
  let '(env, err) :=
    ForeachPackage packages
      (fun e env => (if fn e then Some e else env, None)) None in
  match env with
  | None => (None, Some (NotFound "package not found" []))
  | Some _ => (env, WrapNil err)
  end.

(** [FindConfigPackage].  When [FindPackage] reports no error its
    envelope is not nil; the last branch is the nil dereference that
    the Go code would panic on. *)
Definition FindConfigPackage (packages : Store) (filter : loc.Locator)
  : result loc.Locator :=
  match FindPackage packages
          (fun e => HasLabel e ConfigLabel (loc.String (loc.ZeroVersion filter))) with
  | (_, Some err) =>
      if IsNotFound err
      then Err (NotFound "no configuration package for %v found" [loc.String filter])
      else Err (Wrap err)
  | (Some configPkg, None) => Ok (Locator configPkg)
  | (None, None) => Err (External "nil pointer dereference")
  end.

(** The callback of [FindLatestPackagePredicate]; the captured variable
    is [max]. *)
Definition FindLatestPackagePredicate_predicate
           (filter : PackageEnvelope -> bool) : callback (option loc.Locator) :=
  fun e max =>
    if negb (filter e) then (max, None)
    else match max with
         | None => (Some (Locator e), None)
         | Some m =>
             match loc.SemVer m with
             | Err _ => (max, None)
             | Ok vera =>
                 match loc.SemVer (Locator e) with
                 | Err _ => (max, None)
                 | Ok verb =>
                     if (semver.Compare verb vera >? 0)%Z
                     then (Some (Locator e), None)
                     else (max, None)
                 end
             end
         end.

Definition FindLatestPackagePredicate (packages : Store) (repository : string)
           (filter : PackageEnvelope -> bool) : result loc.Locator :=
  let predicate := FindLatestPackagePredicate_predicate filter in
  let '(max, err) :=
    if bool_decide (repository <> "")
    then ForeachPackageInRepo packages repository predicate None
    else ForeachPackage packages predicate None in
  match err with
  | Some err => Err (Wrap err)
  | None =>
      match max with
      | None => Err (NotFound "latest package not found" [])
      | Some max => Ok max
      end
  end.

Definition FindLatestPackage (packages : Store) (filter : loc.Locator)
  : result loc.Locator :=
  match FindLatestPackagePredicate packages (loc.Repository filter)
          (fun e => bool_decide (loc.Repository (Locator e) = loc.Repository filter)
                    && bool_decide (loc.Name (Locator e) = loc.Name filter)) with
  | Err err =>
      if IsNotFound err
      then Err (NotFound "latest package with filter %v not found" [loc.String filter])
      else Err (Wrap err)
  | Ok l => Ok l
  end.

(** The callback of [FindNewerPackages]; the captured variable is
    [result]. *)
Definition FindNewerPackages_fn (filter : loc.Locator) : callback (list loc.Locator) :=
  fun e result =>
    if bool_decide (loc.Name (Locator e) <> loc.Name filter) then (result, None)
    else match loc.SemVer filter with
         | Err err => (result, Some (Wrap err))
         | Ok vera =>
             match loc.SemVer (Locator e) with
             | Err err => (result, Some (Wrap err))
             | Ok verb =>
                 if (semver.Compare verb vera >? 0)%Z
                 then ((result ++ [Locator e])%list, None)
                 else (result, None)
             end
         end.

Definition FindNewerPackages (packages : Store) (filter : loc.Locator)
  : result (list loc.Locator) :=
  match ForeachPackageInRepo packages (loc.Repository filter)
          (FindNewerPackages_fn filter) [] with
  | (_, Some err) => Err (Wrap err)
  | (result, None) => Ok result
  end.

Definition FindPackageUpdate (packages : Store) (pkg : loc.Locator)
  : result storage.PackageUpdate :=
  match FindLatestPackage packages pkg with
  | Err err => Err (Wrap err)
  | Ok latestPackage =>
      match loc.SemVer pkg with
      | Err err => Err (Wrap err)
      | Ok currentVersion =>
          match loc.SemVer latestPackage with
          | Err err => Err (Wrap err)
          | Ok latestVersion =>
              if (semver.Compare latestVersion currentVersion >? 0)%Z
              then Ok {| storage.From := pkg; storage.To := latestPackage |}
              else Err (NotFound "%v is already at the latest version" [loc.String pkg])
          end
      end
  end.

(** [CheckUpdatePackage] returns an error or nil. *)
Definition CheckUpdatePackage (from to : loc.Locator) : option error :=
  if bool_decide (loc.Repository from <> loc.Repository to)
     || bool_decide (loc.Name from <> loc.Name to)
  then Some (BadParameter
               "you are attempting to upgrade to %v %v, but different application is installed: %v %v"
               [loc.Name to; loc.Version to; loc.Name from; loc.Version from])
  else match loc.SemVer from with
       | Err err => Some (Wrap err)
       | Ok fromVer =>
           match loc.SemVer to with
           | Err err => Some (Wrap err)
           | Ok toVer =>
               if negb (semver.LessThan fromVer toVer)
               then Some (BadParameter
                            "update version (%v) must be greater than the currently installed version (%v)"
                            [semver.String toVer; semver.String fromVer])
               else None
           end
       end.

(** [FindInstalledPackage]; the last branch is the nil dereference, as in
    [FindConfigPackage]. *)
Definition FindInstalledPackage (packages : Store) (filter : loc.Locator)
  : result loc.Locator :=
  match FindPackage packages
          (fun e =>
             if bool_decide (loc.Repository (Locator e) <> loc.Repository filter)
             then false
             else if bool_decide (loc.Name (Locator e) <> loc.Name filter)
             then false
             else HasLabel e InstalledLabel InstalledLabel) with
  | (_, Some err) =>
      if IsNotFound err
      then Err (NotFound "no installed package for %v not found" [loc.String filter])
      else Err (Wrap err)
  | (Some pkg, None) => Ok (Locator pkg)
  | (None, None) => Err (External "nil pointer dereference")
  end.

Definition FindInstalledPackageWithConfig (packages : Store) (filter : loc.Locator)
  : result (loc.Locator * loc.Locator) :=
  match FindInstalledPackage packages filter with
  | Err err => Err (Wrap err)
  | Ok locator =>
      match FindConfigPackage packages locator with
      | Err err => Err (Wrap err)
      | Ok configLocator => Ok (locator, configLocator)
      end
  end.

Definition FindLatestPackageByName (packages : Store) (name : string)
  : result loc.Locator :=
  match FindLatestPackagePredicate packages ""
          (fun e => bool_decide (loc.Name (Locator e) = name)) with
  | Err err =>
      if IsNotFound err
      then Err (NotFound "latest package with name %q not found" [name])
      else Err (Wrap err)
  | Ok l => Ok l
  end.

Definition ProcessMetadata `{!semver.WithMetadata} (packages : Store) (loc : loc.Locator)
  : result loc.Locator :=
  match loc.SemVer loc with
  | Err err => Err (Wrap err)
  | Ok ver =>
      if bool_decide (semver.Metadata ver = LatestLabel)
      then FindLatestPackage packages loc
      else Ok loc
  end.

End Resolver.
(** *** Configuration packages *)

(** What [GetConfigPackage] consumes from the archive and manifest code:
    stream decompression, reading the manifest out of a tarball, the test
    [manifest.Config == nil], parsing of the arguments by the manifest's
    configuration (the manifest with the parsed configuration is
    returned, as the Go call updates it in place) and serialization of
    the configuration package. *)
Class Archive : Type := {
  Manifest : Type;
  DecompressStream : Reader -> result Reader;
  ReadManifest : Reader -> result Manifest;
  ConfigIsNil : Manifest -> bool;
  ParseArgs : Manifest -> list string -> result Manifest;
  WriteConfigPackage : Manifest -> result Reader
}.

Section Configure.
Context {Store : Type} `{PackageService Store} `{Archive} `{loc.Consts}.

Definition GetConfigPackage (p : Store) (loc confLoc : loc.Locator)
           (args : list string) : result Reader :=
  match ReadPackage p loc with
  | Err err => Err (Wrap err)
  | Ok (_, reader) =>
      match DecompressStream reader with
      | Err err => Err (Wrap err)
      | Ok decompressed =>
          match ReadManifest decompressed with
          | Err err => Err (Wrap err)
          | Ok manifest =>
              if ConfigIsNil manifest
              then Err (BadParameter "manifest does not have configuration parameters" [])
              else match ParseArgs manifest args with
                   | Err err => Err (Wrap err)
                   | Ok manifest =>
                       match WriteConfigPackage manifest with
                       | Err err => Err (Wrap err)
                       | Ok buf => Ok buf
                       end
                   end
          end
      end
  end.

(** The local variable [allLabels] of [ConfigurePackage]: the map
    literal holding the config entry, then one assignment
    [allLabels[k] = v] per entry of [labels]. *)
Definition ConfigurePackage_allLabels (loc : loc.Locator)
           (labels : gmap string string) : gmap string string :=
  map_fold (fun k v allLabels => <[k := v]> allLabels)
           {[ ConfigLabel := loc.String (loc.ZeroVersion loc) ]}
           labels.

(** [ConfigurePackage] returns the store left behind and its error. *)
Definition ConfigurePackage (p : Store) (loc confLoc : loc.Locator)
           (args : list string) (labels : gmap string string)
  : Store * option error :=
  match GetConfigPackage p loc confLoc args with
  | Err err => (p, Some (Wrap err))
  | Ok reader =>
      let allLabels := ConfigurePackage_allLabels loc labels in
      match CreatePackage p confLoc reader allLabels with
      | (p, Err err) => (p, Some (Wrap err))
      | (p, Ok _) => (p, None)
      end
  end.

Definition GetPackageManifest (p : Store) (loc : loc.Locator) : result Manifest :=
  match ReadPackage p loc with
  | Err err => Err (Wrap err)
  | Ok (_, reader) =>
      match DecompressStream reader with
      | Err err => Err (Wrap err)
      | Ok decompressed =>
          match ReadManifest decompressed with
          | Err err => Err (Wrap err)
          | Ok manifest => Ok manifest
          end
      end
  end.

Definition ConfigLabels (loc : loc.Locator) (purpose : string) : gmap string string :=
  {[ ConfigLabel := loc.String (loc.ZeroVersion loc); PurposeLabel := purpose ]}.

End Configure.

(** *** Unpacking *)

(** What the unpacking code consumes from the operating system, the state
    directory lookup, the path library and the archive library.  [World]
    is the state of the file system. *)
Class OS (World : Type) : Type := {
  FileInfo : Type;
  IsDir : FileInfo -> bool;
  FileInfoString : FileInfo -> string;
  Stat : World -> string -> result FileInfo;
  FileMode : Type;
  SharedDirMask : FileMode;
  MkdirAll : World -> string -> FileMode -> World * option error;
  GetStateDir : World -> result string;
  Join : list string -> string;
  LocalDir : string;
  PackagesDir : string;
  UnpackedDir : string;
  TarOptions : Type;
  DefaultOptions : TarOptions;
  Untar : World -> Reader -> string -> TarOptions -> World * option error
}.

(** The calls a function makes to its collaborators, in order. *)
Inductive call : Type :=
| CallStat (name : string)
| CallGetStateDir
| CallMkdirAll (path : string)
| CallReadPackage (l : loc.Locator)
| CallUntar (dest : string).

Section Unpacking.
Context {Store World : Type} `{PackageService Store} `{OS World}.

(** A computation over the file system: the world it leaves, the calls
    it made and its result. *)
Definition io (A : Type) : Type := World -> World * list call * result A.

Definition ret {A : Type} (a : A) : io A := fun w => (w, [], Ok a).

(** [x, err := m; if err != nil { return trace.Wrap(err) }; k x] *)
Definition bind {A B : Type} (m : io A) (k : A -> io B) : io B :=
  fun w =>
    match m w with
    | (w, cs, Err err) => (w, cs, Err (Wrap err))
    | (w, cs, Ok a) =>
        match k a w with
        | (w, cs', r) => (w, (cs ++ cs')%list, r)
        end
    end.

Notation "x <- m ;; k" := (bind m (fun x => k))
  (at level 100, m at next level, right associativity).

Definition PackagePath (baseDir : string) (loc : loc.Locator) : string :=
  Join [baseDir; loc.Repository loc; loc.Name loc; loc.Version loc].

Definition IsUnpacked (targetDir : string) : io bool :=
  fun w =>
    (w, [CallStat targetDir],
     match Stat w targetDir with
     | Err err => if IsNotExist err then Ok false else Err (Wrap err)
     | Ok info =>
         if negb (IsDir info)
         then Err (Errorf "expected %v to be a directory, got %v"
                          [targetDir; FileInfoString info])
         else Ok true
     end).

Definition getStateDir : io string :=
  fun w => (w, [CallGetStateDir], GetStateDir w).

Definition mkdirAll (path : string) : io unit :=
  fun w =>
    match MkdirAll w path SharedDirMask with
    | (w, Some err) => (w, [CallMkdirAll path], Err err)
    | (w, None) => (w, [CallMkdirAll path], Ok tt)
    end.

Definition readPackage (p : Store) (loc : loc.Locator) : io Reader :=
  fun w =>
    (w, [CallReadPackage loc],
     match ReadPackage p loc with
     | Err err => Err err
     | Ok (_, reader) => Ok reader
     end).

Definition untar (reader : Reader) (dest : string) (opts : TarOptions) : io unit :=
  fun w =>
    match Untar w reader dest opts with
    | (w, Some err) => (w, [CallUntar dest], Err err)
    | (w, None) => (w, [CallUntar dest], Ok tt)
    end.

Definition Unpack (p : Store) (loc : loc.Locator) (targetDir : string)
           (opts : option TarOptions) : io unit :=
  targetDir <- (if bool_decide (targetDir = "")
                then stateDir <- getStateDir ;;
                     let baseDir := Join [stateDir; LocalDir; PackagesDir; UnpackedDir] in
                     ret (PackagePath baseDir loc)
                else ret targetDir) ;;
  _ <- mkdirAll targetDir ;;
  reader <- readPackage p loc ;;
  let opts := match opts with
              | None => DefaultOptions
              | Some opts => opts
              end in
  _ <- untar reader targetDir opts ;;
  ret tt.

Definition UnpackIfNotUnpacked (p : Store) (loc : loc.Locator) (targetDir : string)
           (opts : option TarOptions) : io unit :=
  isUnpacked <- IsUnpacked targetDir ;;
  if (isUnpacked : bool) then ret tt
  else _ <- Unpack p loc targetDir opts ;;
       ret tt.

End Unpacking.
End pack.

(** ** Package [update]: dispatch of phase executors *)
Module update.
Import trace.

Definition updateInit : string := "update_init".
Definition updateChecks : string := "update_checks".
Definition updateBootstrap : string := "update_bootstrap".
Definition updateSystem : string := "update_system".
Definition preUpdate : string := "pre_update".
Definition coredns : string := "coredns".
Definition updateApp : string := "update_app".
Definition electionStatus : string := "election_status".
Definition taintNode : string := "taint_node".
Definition untaintNode : string := "untaint_node".
Definition drainNode : string := "drain_node".
Definition uncordonNode : string := "uncordon_node".
Definition endpoints : string := "endpoints".
Definition config : string := "config".
Definition kubeletPermissions : string := "kubelet_permissions".
Definition migrateLinks : string := "links".
Definition updateLabels : string := "labels".
Definition migrateRoles : string := "roles".
Definition updateEtcdBackup : string := "etcd_backup".
Definition updateEtcdShutdown : string := "etcd_shutdown".
Definition updateEtcdMaster : string := "etcd_upgrade".
Definition updateEtcdRestore : string := "etcd_restore".
Definition updateEtcdRestart : string := "etcd_restart".
Definition updateEtcdRestartGravity : string := "etcd_restart_gravity".
Definition cleanupNode : string := "cleanup_node".

(** What [fsmSpec] consumes from packages [fsm], [ops] and from the rest
    of package [update]: the plan and phase types with the fields read
    here, the operation type constant, the configuration with its
    [Remote] and [Operator] fields, and the constructors of the phase
    executors. *)
Class Env : Type := {
  OperationPlan : Type;
  OperationPhase : Type;
  OperationType : OperationPlan -> string;
  ID : OperationPhase -> string;
  Executor : OperationPhase -> string;
  OperationUpdate : string;
  FSMConfig : Type;
  fsmRemote : Type;
  opsOperator : Type;
  Remote : FSMConfig -> fsmRemote;
  Operator : FSMConfig -> opsOperator;
  PhaseExecutor : Type;
  ExecutorParams : Type;
  Plan : ExecutorParams -> OperationPlan;
  Phase : ExecutorParams -> OperationPhase;
  NewUpdatePhaseInit : FSMConfig -> OperationPlan -> OperationPhase -> result PhaseExecutor;
  NewUpdatePhaseChecks : FSMConfig -> OperationPlan -> OperationPhase -> fsmRemote -> result PhaseExecutor;
  NewUpdatePhaseBootstrap : FSMConfig -> OperationPlan -> OperationPhase -> fsmRemote -> result PhaseExecutor;
  NewPhaseCoreDNS : FSMConfig -> OperationPlan -> OperationPhase -> result PhaseExecutor;
  NewUpdatePhaseSystem : FSMConfig -> OperationPlan -> OperationPhase -> fsmRemote -> result PhaseExecutor;
  NewUpdatePhaseBeforeApp : FSMConfig -> OperationPlan -> OperationPhase -> result PhaseExecutor;
  NewUpdatePhaseApp : FSMConfig -> OperationPlan -> OperationPhase -> result PhaseExecutor;
  NewPhaseElectionChange : OperationPlan -> OperationPhase -> fsmRemote -> opsOperator -> result PhaseExecutor;
  NewPhaseTaint : FSMConfig -> OperationPlan -> OperationPhase -> result PhaseExecutor;
  NewPhaseUntaint : FSMConfig -> OperationPlan -> OperationPhase -> result PhaseExecutor;
  NewPhaseDrain : FSMConfig -> OperationPlan -> OperationPhase -> result PhaseExecutor;
  NewPhaseUncordon : FSMConfig -> OperationPlan -> OperationPhase -> result PhaseExecutor;
  NewPhaseEndpoints : FSMConfig -> OperationPlan -> OperationPhase -> result PhaseExecutor;
  NewUpdatePhaseConfig : FSMConfig -> ExecutorParams -> fsmRemote -> result PhaseExecutor;
  NewPhaseKubeletPermissions : FSMConfig -> OperationPlan -> OperationPhase -> result PhaseExecutor;
  NewPhaseMigrateLinks : FSMConfig -> OperationPlan -> OperationPhase -> result PhaseExecutor;
  NewPhaseUpdateLabels : FSMConfig -> OperationPlan -> OperationPhase -> result PhaseExecutor;
  NewPhaseMigrateRoles : FSMConfig -> OperationPlan -> OperationPhase -> result PhaseExecutor;
  NewPhaseUpgradeEtcdBackup : FSMConfig -> OperationPlan -> OperationPhase -> result PhaseExecutor;
  NewPhaseUpgradeEtcdShutdown : FSMConfig -> OperationPlan -> OperationPhase -> result PhaseExecutor;
  NewPhaseUpgradeEtcd : FSMConfig -> OperationPlan -> OperationPhase -> result PhaseExecutor;
  NewPhaseUpgradeEtcdRestore : FSMConfig -> OperationPlan -> OperationPhase -> result PhaseExecutor;
  NewPhaseUpgradeEtcdRestart : FSMConfig -> OperationPlan -> OperationPhase -> result PhaseExecutor;
  NewPhaseUpgradeGravitySiteRestart : FSMConfig -> OperationPlan -> OperationPhase -> result PhaseExecutor;
  NewGarbageCollectPhase : OperationPlan -> OperationPhase -> fsmRemote -> result PhaseExecutor
}.

Section Dispatch.
Context `{Env}.

(** One [case] of the switch on [p.Phase.Executor]. *)
Notation "'case' c '=>' r 'otherwise' k" :=
  (if bool_decide (c) then r else k)
  (at level 10, c at level 99, r at level 99, k at level 200,
   format "'[v' 'case'  c  '=>'  r '/' 'otherwise'  k ']'").

(** The function returned by [fsmSpec c]. *)
Definition fsmSpec (c : FSMConfig) (p : ExecutorParams) (remote : fsmRemote)
  : result PhaseExecutor :=
  if bool_decide (Executor (Phase p) = "")
  then Err (BadParameter "error in plan, executor for phase %q was not specified"
                         [ID (Phase p)])
  else if bool_decide (OperationType (Plan p) <> OperationUpdate)
  then Err (BadParameter "unsupported operation %q" [OperationType (Plan p)])
  else
    let x := Executor (Phase p) in
    case x = updateInit => NewUpdatePhaseInit c (Plan p) (Phase p) otherwise
    case x = updateChecks => NewUpdatePhaseChecks c (Plan p) (Phase p) (Remote c) otherwise
    case x = updateBootstrap => NewUpdatePhaseBootstrap c (Plan p) (Phase p) remote otherwise
    case x = coredns => NewPhaseCoreDNS c (Plan p) (Phase p) otherwise
    case x = updateSystem => NewUpdatePhaseSystem c (Plan p) (Phase p) remote otherwise
    case x = preUpdate => NewUpdatePhaseBeforeApp c (Plan p) (Phase p) otherwise
    case x = updateApp => NewUpdatePhaseApp c (Plan p) (Phase p) otherwise
    case x = electionStatus => NewPhaseElectionChange (Plan p) (Phase p) remote (Operator c) otherwise
    case x = taintNode => NewPhaseTaint c (Plan p) (Phase p) otherwise
    case x = untaintNode => NewPhaseUntaint c (Plan p) (Phase p) otherwise
    case x = drainNode => NewPhaseDrain c (Plan p) (Phase p) otherwise
    case x = uncordonNode => NewPhaseUncordon c (Plan p) (Phase p) otherwise
    case x = endpoints => NewPhaseEndpoints c (Plan p) (Phase p) otherwise
    case x = config => NewUpdatePhaseConfig c p remote otherwise
    case x = kubeletPermissions => NewPhaseKubeletPermissions c (Plan p) (Phase p) otherwise
    case x = migrateLinks => NewPhaseMigrateLinks c (Plan p) (Phase p) otherwise
    case x = updateLabels => NewPhaseUpdateLabels c (Plan p) (Phase p) otherwise
    case x = migrateRoles => NewPhaseMigrateRoles c (Plan p) (Phase p) otherwise
    case x = updateEtcdBackup => NewPhaseUpgradeEtcdBackup c (Plan p) (Phase p) otherwise
    case x = updateEtcdShutdown => NewPhaseUpgradeEtcdShutdown c (Plan p) (Phase p) otherwise
    case x = updateEtcdMaster => NewPhaseUpgradeEtcd c (Plan p) (Phase p) otherwise
    case x = updateEtcdRestore => NewPhaseUpgradeEtcdRestore c (Plan p) (Phase p) otherwise
    case x = updateEtcdRestart => NewPhaseUpgradeEtcdRestart c (Plan p) (Phase p) otherwise
    case x = updateEtcdRestartGravity => NewPhaseUpgradeGravitySiteRestart c (Plan p) (Phase p) otherwise
    case x = cleanupNode => NewGarbageCollectPhase (Plan p) (Phase p) remote otherwise
    Err (BadParameter
           "phase %q requires executor %q (potential mismatch between upgrade versions)"
           [ID (Phase p); Executor (Phase p)]).

(** The closed vocabulary of executor names, in the order of the
    constant block. *)
Definition vocabulary : list string :=
  [ updateInit; updateChecks; updateBootstrap; updateSystem; preUpdate;
    coredns; updateApp; electionStatus; taintNode; untaintNode; drainNode;
    uncordonNode; endpoints; config; kubeletPermissions; migrateLinks;
    updateLabels; migrateRoles; updateEtcdBackup; updateEtcdShutdown;
    updateEtcdMaster; updateEtcdRestore; updateEtcdRestart;
    updateEtcdRestartGravity; cleanupNode ].

(** The constructor call that belongs to each name of the vocabulary,
    written as a table for the statement of the dispatch contract. *)
Definition constructors (c : FSMConfig) (p : ExecutorParams) (remote : fsmRemote)
  : list (string * result PhaseExecutor) :=
  [ (updateInit, NewUpdatePhaseInit c (Plan p) (Phase p));
    (updateChecks, NewUpdatePhaseChecks c (Plan p) (Phase p) (Remote c));
    (updateBootstrap, NewUpdatePhaseBootstrap c (Plan p) (Phase p) remote);
    (updateSystem, NewUpdatePhaseSystem c (Plan p) (Phase p) remote);
    (preUpdate, NewUpdatePhaseBeforeApp c (Plan p) (Phase p));
    (coredns, NewPhaseCoreDNS c (Plan p) (Phase p));
    (updateApp, NewUpdatePhaseApp c (Plan p) (Phase p));
    (electionStatus, NewPhaseElectionChange (Plan p) (Phase p) remote (Operator c));
    (taintNode, NewPhaseTaint c (Plan p) (Phase p));
    (untaintNode, NewPhaseUntaint c (Plan p) (Phase p));
    (drainNode, NewPhaseDrain c (Plan p) (Phase p));
    (uncordonNode, NewPhaseUncordon c (Plan p) (Phase p));
    (endpoints, NewPhaseEndpoints c (Plan p) (Phase p));
    (config, NewUpdatePhaseConfig c p remote);
    (kubeletPermissions, NewPhaseKubeletPermissions c (Plan p) (Phase p));
    (migrateLinks, NewPhaseMigrateLinks c (Plan p) (Phase p));
    (updateLabels, NewPhaseUpdateLabels c (Plan p) (Phase p));
    (migrateRoles, NewPhaseMigrateRoles c (Plan p) (Phase p));
    (updateEtcdBackup, NewPhaseUpgradeEtcdBackup c (Plan p) (Phase p));
    (updateEtcdShutdown, NewPhaseUpgradeEtcdShutdown c (Plan p) (Phase p));
    (updateEtcdMaster, NewPhaseUpgradeEtcd c (Plan p) (Phase p));
    (updateEtcdRestore, NewPhaseUpgradeEtcdRestore c (Plan p) (Phase p));
    (updateEtcdRestart, NewPhaseUpgradeEtcdRestart c (Plan p) (Phase p));
    (updateEtcdRestartGravity, NewPhaseUpgradeGravitySiteRestart c (Plan p) (Phase p));
    (cleanupNode, NewGarbageCollectPhase (Plan p) (Phase p) remote) ].

End Dispatch.
End update.

(** ** Reference collaborators

    Small executable implementations of the consumed interfaces, on which
    the functions above can be run. *)
Module reference.
Import trace.

(** *** Semantic versions: the numeric core [major.minor.patch] *)
Record Version : Type := { Major : Z; Minor : Z; Patch : Z }.

Definition digit (a : ascii) : option Z :=
  let n := Z.of_nat (nat_of_ascii a) in
  if ((48 <=? n) && (n <=? 57))%Z then Some (n - 48)%Z else None.

Fixpoint digits (s : string) (acc : Z) : option Z :=
  match s with
  | EmptyString => Some acc
  | String a s =>
      match digit a with
      | Some d => digits s (10 * acc + d)%Z
      | None => None
      end
  end.

Definition number (s : string) : option Z :=
  match s with
  | EmptyString => None
  | _ => digits s 0
  end.

(** The fields of [s] between dots; [cur] is the field being read, in
    reverse. *)
Fixpoint fields (s : string) (cur : string) : list string :=
  match s with
  | EmptyString => [String.rev cur]
  | String a s =>
      if Ascii.eqb a "."%char
      then String.rev cur :: fields s EmptyString
      else fields s (String a cur)
  end.

Definition NewVersion (s : string) : result Version :=
  match fields s EmptyString with
  | [a; b; c] =>
      match number a, number b, number c with
      | Some a, Some b, Some c => Ok {| Major := a; Minor := b; Patch := c |}
      | _, _, _ => Err (External (s +:+ " is not a valid semantic version"))
      end
  | _ => Err (External (s +:+ " is not in dotted-tri format"))
  end.

Fixpoint recursiveCompare (versionA versionB : list Z) : Z :=
  match versionA, versionB with
  | a :: versionA, b :: versionB =>
      if (a >? b)%Z then 1%Z
      else if (a <? b)%Z then (-1)%Z
      else recursiveCompare versionA versionB
  | _, _ => 0%Z
  end.

Definition Slice (v : Version) : list Z := [Major v; Minor v; Patch v].

Definition Compare (v w : Version) : Z := recursiveCompare (Slice v) (Slice w).

Definition numeric : semver.Lib :=
  {| semver.Version := Version;
     semver.NewVersion := NewVersion;
     semver.Compare := Compare;
     semver.String := fun v =>
       pretty (Major v) +:+ "." +:+ pretty (Minor v) +:+ "." +:+ pretty (Patch v) |}.

(** *** Semantic versions with build metadata: [major.minor.patch+metadata] *)

(** The part of [s] before the first plus sign and the part after it;
    [cur] is the part being read, in reverse. *)
Fixpoint splitPlus (s : string) (cur : string) : string * string :=
  match s with
  | EmptyString => (String.rev cur, EmptyString)
  | String a s =>
      if Ascii.eqb a "+"%char then (String.rev cur, s)
      else splitPlus s (String a cur)
  end.

Definition tagged : semver.Lib :=
  {| semver.Version := Version * string;
     semver.NewVersion := fun s =>
       match NewVersion (fst (splitPlus s EmptyString)) with
       | Ok v => Ok (v, snd (splitPlus s EmptyString))
       | Err err => Err err
       end;
     semver.Compare := fun v w => Compare (fst v) (fst w);
     semver.String := fun v => semver.String (Lib := numeric) (fst v) |}.

Definition taggedMetadata : @semver.WithMetadata tagged :=
  {| semver.Metadata := (snd : @semver.Version tagged -> string) |}.

Definition zero : loc.Consts := {| loc.ZeroVersionString := "0.0.0" |}.

(** *** An in-memory package store: repositories in order, each with its
    packages in order *)
Definition MemStore : Type := list (string * list pack.PackageEnvelope).

Fixpoint packagesOf (s : MemStore) (repo : string) : option (list pack.PackageEnvelope) :=
  match s with
  | [] => None
  | (r, packs) :: s => if bool_decide (r = repo) then Some packs else packagesOf s repo
  end.

(** Append [e] to the packages of its repository, adding the repository
    at the end when the store does not have it yet. *)
Fixpoint addPackage (s : MemStore) (e : pack.PackageEnvelope) : MemStore :=
  match s with
  | [] => [(loc.Repository (pack.Locator e), [e])]
  | (r, packs) :: s =>
      if bool_decide (r = loc.Repository (pack.Locator e))
      then (r, packs ++ [e])%list :: s
      else (r, packs) :: addPackage s e
  end.

Definition memory : pack.PackageService MemStore :=
  {| pack.GetRepositories := fun s => Ok (map fst s);
     pack.GetPackages := fun s repo =>
       match packagesOf s repo with
       | Some packs => Ok packs
       | None => Err (NotFound "repository %v not found" [repo])
       end;
     pack.ReadPackage := fun s l =>
       match packagesOf s (loc.Repository l) with
       | Some packs =>
           match List.find (fun e => bool_decide (pack.Locator e = l)) packs with
           | Some e => Ok (e, [])
           | None => Err (NotFound "package %v not found" [loc.String l])
           end
       | None => Err (NotFound "repository %v not found" [loc.Repository l])
       end;
     pack.CreatePackage := fun s l reader labels =>
       let e := {| pack.Locator := l; pack.RuntimeLabels := labels |} in
       (addPackage s e, Ok e) |}.

(** *** An in-memory store some of whose repositories cannot be read *)
Definition FlakyStore : Type := MemStore * list string.

Definition flaky : pack.PackageService FlakyStore :=
  {| pack.GetRepositories := fun s => Ok (map fst (fst s));
     pack.GetPackages := fun s repo =>
       if bool_decide (repo ∈ snd s) then Err (External "i/o error")
       else pack.GetPackages (PackageService := memory) (fst s) repo;
     pack.ReadPackage := fun s l =>
       if bool_decide (loc.Repository l ∈ snd s) then Err (External "i/o error")
       else pack.ReadPackage (PackageService := memory) (fst s) l;
     pack.CreatePackage := fun s l reader labels =>
       if bool_decide (loc.Repository l ∈ snd s) then (s, Err (External "i/o error"))
       else ((fst (pack.CreatePackage (PackageService := memory) (fst s) l reader labels),
              snd s),
             snd (pack.CreatePackage (PackageService := memory) (fst s) l reader labels)) |}.

(** The same store when the unreadable repositories fail with [err]. *)
Definition failing (err : error) : pack.PackageService FlakyStore :=
  {| pack.GetRepositories := fun s => Ok (map fst (fst s));
     pack.GetPackages := fun s repo =>
       if bool_decide (repo ∈ snd s) then Err err
       else pack.GetPackages (PackageService := memory) (fst s) repo;
     pack.ReadPackage := fun s l =>
       if bool_decide (loc.Repository l ∈ snd s) then Err err
       else pack.ReadPackage (PackageService := memory) (fst s) l;
     pack.CreatePackage := fun s l reader labels =>
       if bool_decide (loc.Repository l ∈ snd s) then (s, Err err)
       else ((fst (pack.CreatePackage (PackageService := memory) (fst s) l reader labels),
              snd s),
             snd (pack.CreatePackage (PackageService := memory) (fst s) l reader labels)) |}.

(** *** Manifests: a manifest is the list of its configuration
    arguments *)
Definition plain : pack.Archive :=
  {| pack.Manifest := list string;
     pack.DecompressStream := fun r => Ok r;
     pack.ReadManifest := fun _ => Ok [];
     pack.ConfigIsNil := fun _ => false;
     pack.ParseArgs := fun _ args => Ok args;
     pack.WriteConfigPackage := fun _ => Ok [] |}.

(** *** A file system that only knows which directories exist *)
Definition Dirs : Type := list string.

Definition ENOENT : error := NotExist "no such file or directory".

(** Path elements separated by slashes. *)
Fixpoint join (elems : list string) : string :=
  match elems with
  | [] => ""
  | [e] => e
  | e :: elems => e +:+ "/" +:+ join elems
  end.

Definition dirs : pack.OS Dirs :=
  {| pack.FileInfo := bool;
     pack.IsDir := fun info => info;
     pack.FileInfoString := fun _ => "";
     pack.Stat := fun w name =>
       if bool_decide (name ∈ w) then Ok true else Err ENOENT;
     pack.FileMode := unit;
     pack.SharedDirMask := tt;
     pack.MkdirAll := fun w path _ =>
       if bool_decide (path = "") then (w, Some ENOENT) else (path :: w, None);
     pack.GetStateDir := fun _ => Ok "/var/lib/gravity";
     pack.Join := join;
     pack.LocalDir := "local";
     pack.PackagesDir := "packages";
     pack.UnpackedDir := "unpacked";
     pack.TarOptions := unit;
     pack.DefaultOptions := tt;
     pack.Untar := fun w _ _ _ => (w, None) |}.

(** *** Phase executors that only remember which constructor built
    them *)
Definition named : update.Env :=
  {| update.OperationPlan := string;
     update.OperationPhase := string * string;
     update.OperationType := fun plan => plan;
     update.ID := fst;
     update.Executor := snd;
     update.OperationUpdate := "operation_update";
     update.FSMConfig := unit;
     update.fsmRemote := unit;
     update.opsOperator := unit;
     update.Remote := fun _ => tt;
     update.Operator := fun _ => tt;
     update.PhaseExecutor := string;
     update.ExecutorParams := string * (string * string);
     update.Plan := fst;
     update.Phase := snd;
     update.NewUpdatePhaseInit := fun _ _ _ => Ok "NewUpdatePhaseInit";
     update.NewUpdatePhaseChecks := fun _ _ _ _ => Ok "NewUpdatePhaseChecks";
     update.NewUpdatePhaseBootstrap := fun _ _ _ _ => Ok "NewUpdatePhaseBootstrap";
     update.NewPhaseCoreDNS := fun _ _ _ => Ok "NewPhaseCoreDNS";
     update.NewUpdatePhaseSystem := fun _ _ _ _ => Ok "NewUpdatePhaseSystem";
     update.NewUpdatePhaseBeforeApp := fun _ _ _ => Ok "NewUpdatePhaseBeforeApp";
     update.NewUpdatePhaseApp := fun _ _ _ => Ok "NewUpdatePhaseApp";
     update.NewPhaseElectionChange := fun _ _ _ _ => Ok "NewPhaseElectionChange";
     update.NewPhaseTaint := fun _ _ _ => Ok "NewPhaseTaint";
     update.NewPhaseUntaint := fun _ _ _ => Ok "NewPhaseUntaint";
     update.NewPhaseDrain := fun _ _ _ => Ok "NewPhaseDrain";
     update.NewPhaseUncordon := fun _ _ _ => Ok "NewPhaseUncordon";
     update.NewPhaseEndpoints := fun _ _ _ => Ok "NewPhaseEndpoints";
     update.NewUpdatePhaseConfig := fun _ _ _ => Ok "NewUpdatePhaseConfig";
     update.NewPhaseKubeletPermissions := fun _ _ _ => Ok "NewPhaseKubeletPermissions";
     update.NewPhaseMigrateLinks := fun _ _ _ => Ok "NewPhaseMigrateLinks";
     update.NewPhaseUpdateLabels := fun _ _ _ => Ok "NewPhaseUpdateLabels";
     update.NewPhaseMigrateRoles := fun _ _ _ => Ok "NewPhaseMigrateRoles";
     update.NewPhaseUpgradeEtcdBackup := fun _ _ _ => Ok "NewPhaseUpgradeEtcdBackup";
     update.NewPhaseUpgradeEtcdShutdown := fun _ _ _ => Ok "NewPhaseUpgradeEtcdShutdown";
     update.NewPhaseUpgradeEtcd := fun _ _ _ => Ok "NewPhaseUpgradeEtcd";
     update.NewPhaseUpgradeEtcdRestore := fun _ _ _ => Ok "NewPhaseUpgradeEtcdRestore";
     update.NewPhaseUpgradeEtcdRestart := fun _ _ _ => Ok "NewPhaseUpgradeEtcdRestart";
     update.NewPhaseUpgradeGravitySiteRestart := fun _ _ _ => Ok "NewPhaseUpgradeGravitySiteRestart";
     update.NewGarbageCollectPhase := fun _ _ _ => Ok "NewGarbageCollectPhase" |}.

(** *** Phase executors that remember their constructor and the remote
    handle it was given (empty when it takes none); the configuration is
    its own remote *)
Definition remoted : update.Env :=
  {| update.OperationPlan := string;
     update.OperationPhase := string * string;
     update.OperationType := fun plan => plan;
     update.ID := fst;
     update.Executor := snd;
     update.OperationUpdate := "operation_update";
     update.FSMConfig := string;
     update.fsmRemote := string;
     update.opsOperator := unit;
     update.Remote := fun c => c;
     update.Operator := fun _ => tt;
     update.PhaseExecutor := string * string;
     update.ExecutorParams := string * (string * string);
     update.Plan := fst;
     update.Phase := snd;
     update.NewUpdatePhaseInit := fun _ _ _ => Ok ("NewUpdatePhaseInit", "");
     update.NewUpdatePhaseChecks := fun _ _ _ r => Ok ("NewUpdatePhaseChecks", r);
     update.NewUpdatePhaseBootstrap := fun _ _ _ r => Ok ("NewUpdatePhaseBootstrap", r);
     update.NewPhaseCoreDNS := fun _ _ _ => Ok ("NewPhaseCoreDNS", "");
     update.NewUpdatePhaseSystem := fun _ _ _ r => Ok ("NewUpdatePhaseSystem", r);
     update.NewUpdatePhaseBeforeApp := fun _ _ _ => Ok ("NewUpdatePhaseBeforeApp", "");
     update.NewUpdatePhaseApp := fun _ _ _ => Ok ("NewUpdatePhaseApp", "");
     update.NewPhaseElectionChange := fun _ _ r _ => Ok ("NewPhaseElectionChange", r);
     update.NewPhaseTaint := fun _ _ _ => Ok ("NewPhaseTaint", "");
     update.NewPhaseUntaint := fun _ _ _ => Ok ("NewPhaseUntaint", "");
     update.NewPhaseDrain := fun _ _ _ => Ok ("NewPhaseDrain", "");
     update.NewPhaseUncordon := fun _ _ _ => Ok ("NewPhaseUncordon", "");
     update.NewPhaseEndpoints := fun _ _ _ => Ok ("NewPhaseEndpoints", "");
     update.NewUpdatePhaseConfig := fun _ _ r => Ok ("NewUpdatePhaseConfig", r);
     update.NewPhaseKubeletPermissions := fun _ _ _ => Ok ("NewPhaseKubeletPermissions", "");
     update.NewPhaseMigrateLinks := fun _ _ _ => Ok ("NewPhaseMigrateLinks", "");
     update.NewPhaseUpdateLabels := fun _ _ _ => Ok ("NewPhaseUpdateLabels", "");
     update.NewPhaseMigrateRoles := fun _ _ _ => Ok ("NewPhaseMigrateRoles", "");
     update.NewPhaseUpgradeEtcdBackup := fun _ _ _ => Ok ("NewPhaseUpgradeEtcdBackup", "");
     update.NewPhaseUpgradeEtcdShutdown := fun _ _ _ => Ok ("NewPhaseUpgradeEtcdShutdown", "");
     update.NewPhaseUpgradeEtcd := fun _ _ _ => Ok ("NewPhaseUpgradeEtcd", "");
     update.NewPhaseUpgradeEtcdRestore := fun _ _ _ => Ok ("NewPhaseUpgradeEtcdRestore", "");
     update.NewPhaseUpgradeEtcdRestart := fun _ _ _ => Ok ("NewPhaseUpgradeEtcdRestart", "");
     update.NewPhaseUpgradeGravitySiteRestart := fun _ _ _ =>
       Ok ("NewPhaseUpgradeGravitySiteRestart", "");
     update.NewGarbageCollectPhase := fun _ _ r => Ok ("NewGarbageCollectPhase", r) |}.

(** *** Sample data *)
Definition locator (repository name version : string) : loc.Locator :=
  {| loc.Repository := repository; loc.Name := name; loc.Version := version |}.

Definition envelope (l : loc.Locator) (labels : list (string * string))
  : pack.PackageEnvelope :=
  {| pack.Locator := l; pack.RuntimeLabels := list_to_map labels |}.

End reference.

(** ** Notions used in the statements *)
Module enumeration.
Import trace pack.

Section Enumeration.
Context {Store : Type} `{PackageService Store}.

(** The envelopes that [ForeachPackageInRepo] hands to its callback, in
    order, and the error that ended the enumeration, if any. *)
Definition repoPackages (packages : Store) (repo : string)
  : list PackageEnvelope * option error :=
  match GetPackages packages repo with
  | Err err => ([], Some err)
  | Ok packs => (packs, None)
  end.

Fixpoint reposPackages (packages : Store) (repos : list string)
  : list PackageEnvelope * option error :=
  match repos with
  | [] => ([], None)
  | repo :: repos =>
      match GetPackages packages repo with
      | Err err => ([], Some err)
      | Ok packs =>
          let '(es, err) := reposPackages packages repos in
          ((packs ++ es)%list, err)
      end
  end.

(** The same for [ForeachPackage]: repositories in [GetRepositories]
    order, packages in [GetPackages] order. *)
Definition allPackages (packages : Store) : list PackageEnvelope * option error :=
  match GetRepositories packages with
  | Err err => ([], Some err)
  | Ok repos => reposPackages packages repos
  end.

(** The envelopes visited by [FindLatestPackagePredicate]. *)
Definition scanned (packages : Store) (repository : string)
  : list PackageEnvelope * option error :=
  if bool_decide (repository <> "")
  then repoPackages packages repository
  else allPackages packages.

(** The captured state after a callback has seen the envelopes [es],
    for a callback that cannot fail. *)
Definition after {St : Type} (fn : callback St) (es : list PackageEnvelope) (st : St) : St :=
  fold_left (fun st e => fst (fn e st)) es st.

Definition total {St : Type} (fn : callback St) : Prop :=
  forall e st, snd (fn e st) = None.

End Enumeration.

(** The envelopes that [FindNewerPackages] keeps: the filter's name and a
    version above [vera]. *)
Definition newerThan `{semver.Lib} (filter : loc.Locator) (vera : semver.Version)
           (e : PackageEnvelope) : bool :=
  bool_decide (loc.Name (Locator e) = loc.Name filter)
  && match loc.SemVer (Locator e) with
     | Ok verb => (semver.Compare verb vera >? 0)%Z
     | Err _ => false
     end.

(** [max] is nil or a locator with a version strictly below [c]. *)
Definition below `{semver.Lib} (c : semver.Version) (max : option loc.Locator) : Prop :=
  match max with
  | None => True
  | Some m => exists v, loc.SemVer m = Ok v /\ (0 < semver.Compare c v)%Z
  end.

(** Number of package reads, and of untars, in a sequence of calls. *)
Definition reads (cs : list call) : nat :=
  length (List.filter (fun c => match c with CallReadPackage _ => true | _ => false end) cs).

Definition untars (cs : list call) : nat :=
  length (List.filter (fun c => match c with CallUntar _ => true | _ => false end) cs).

(** Assumptions on the operating system and the archive library: a
    successful [MkdirAll] leaves a directory at the path, and [Untar]
    into a directory leaves that directory a directory. *)
Class OSLaws {World : Type} `{OS World} : Prop := {
  MkdirAll_dir : forall (w w' : World) path mode,
    MkdirAll w path mode = (w', None) ->
    exists info, Stat w' path = Ok info /\ IsDir info = true;
  Untar_dir : forall (w w' : World) reader dest opts err info,
    Untar w reader dest opts = (w', err) ->
    Stat w dest = Ok info -> IsDir info = true ->
    exists info', Stat w' dest = Ok info' /\ IsDir info' = true
}.

End enumeration.

(** * Properties *)

Import trace.

(** ** Update validation *)
Section UpdateValidation.
Context `{semver.Lib}.

(** C1.  For two Locators whose version strings parse as semantic
    versions, [CheckUpdatePackage] returns nil exactly when repository and
    name agree and the version of [from] is strictly below the version of
    [to]; in every other case it returns a BadParameter error. *)
Theorem CheckUpdatePackage_iff (from to : loc.Locator) (fromVer toVer : semver.Version) :
  loc.SemVer from = Ok fromVer ->
  loc.SemVer to = Ok toVer ->
  (pack.CheckUpdatePackage from to = None <->
     loc.Repository from = loc.Repository to /\
     loc.Name from = loc.Name to /\
     (semver.Compare fromVer toVer < 0)%Z) /\
  (pack.CheckUpdatePackage from to <> None ->
     exists format args,
       pack.CheckUpdatePackage from to = Some (BadParameter format args)).
Proof.
  intros Hfrom Hto. unfold pack.CheckUpdatePackage, semver.LessThan.
  rewrite Hfrom, Hto.
  destruct (decide (loc.Repository from = loc.Repository to)) as [Hr|Hr];
    destruct (decide (loc.Name from = loc.Name to)) as [Hn|Hn];
    repeat case_bool_decide; simpl; try tauto;
    try (split; [split; [discriminate | tauto] | eauto]).
  destruct (Z.ltb_spec (semver.Compare fromVer toVer) 0); simpl.
  - split; [tauto | congruence].
  - split; [split; [discriminate | lia] | eauto].
Qed.

End UpdateValidation.

(** ** Enumeration of the store *)
Section Scans.
Import pack enumeration.
Context {Store : Type} `{PackageService Store}.

Lemma ForeachPackageInRepo_range_total {St : Type} (fn : callback St) packs st :
  total fn ->
  ForeachPackageInRepo_range fn packs st = (after fn packs st, None).
Proof.
  intros Hfn. revert st.
  induction packs as [|pkg packs IH]; intros st; simpl; [done|].
  specialize (Hfn pkg st). destruct (fn pkg st) as [st' [err|]]; simpl in *.
  - discriminate.
  - apply IH.
Qed.

Lemma ForeachPackageInRepo_total {St : Type} (fn : callback St) packages repo st :
  total fn ->
  ForeachPackageInRepo packages repo fn st =
    (after fn (fst (repoPackages packages repo)) st, snd (repoPackages packages repo)).
Proof.
  intros Hfn. unfold ForeachPackageInRepo, repoPackages.
  destruct (GetPackages packages repo) as [packs|err]; simpl; [|done].
  by apply ForeachPackageInRepo_range_total.
Qed.

Lemma after_app {St : Type} (fn : callback St) es es' st :
  after fn (es ++ es') st = after fn es' (after fn es st).
Proof. apply fold_left_app. Qed.

Lemma ForeachPackage_range_total {St : Type} (fn : callback St) packages repos st :
  total fn ->
  ForeachPackage_range packages fn repos st =
    (after fn (fst (reposPackages packages repos)) st, snd (reposPackages packages repos)).
Proof.
  intros Hfn. revert st.
  induction repos as [|repo repos IH]; intros st; simpl; [done|].
  rewrite ForeachPackageInRepo_total by done. unfold repoPackages.
  destruct (GetPackages packages repo) as [packs|err]; simpl; [|done].
  rewrite IH. destruct (reposPackages packages repos) as [es err]; simpl.
  by rewrite after_app.
Qed.

Lemma ForeachPackage_total {St : Type} (fn : callback St) packages st :
  total fn ->
  ForeachPackage packages fn st =
    (after fn (fst (allPackages packages)) st, snd (allPackages packages)).
Proof.
  intros Hfn. unfold ForeachPackage, allPackages.
  destruct (GetRepositories packages) as [repos|err]; simpl; [|done].
  by apply ForeachPackage_range_total.
Qed.

Lemma filter_rejected (fn : PackageEnvelope -> bool) es :
  Forall (fun e => fn e = false) es ->
  filter (fun e => fn e = true) es = [].
Proof.
  induction 1 as [|e es He _ IH]; [done|].
  rewrite filter_cons, decide_False by congruence. exact IH.
Qed.

(** The variable [env] of [FindPackage] holds the last accepted envelope
    seen so far. *)
Lemma FindPackage_env_last (fn : PackageEnvelope -> bool) es env :
  after (fun e env => (if fn e then Some e else env, None)) es env =
    match last (filter (fun e => fn e = true) es) with
    | Some e => Some e
    | None => env
    end.
Proof.
  unfold after. revert env.
  induction es as [|e es IH]; intros env; simpl in *; [done|].
  rewrite IH, filter_cons.
  destruct (fn e) eqn:He.
  - rewrite decide_True by done.
    destruct (filter _ es) as [|e' es'] eqn:Hes; simpl; [done|].
    destruct (last (e' :: es')) eqn:Hl; [done|].
    by apply last_None in Hl.
  - by rewrite decide_False by done.
Qed.

End Scans.

(** ** [FindPackage] *)
Section FindPackageSpec.
Import pack enumeration.
Context {Store : Type} `{PackageService Store}.

(** [FindPackage] in terms of the envelopes it visits: the last accepted
    one, with the error of the enumeration. *)
Lemma FindPackage_visited (packages : Store) (fn : PackageEnvelope -> bool) :
  FindPackage packages fn =
    match last (filter (fun e => fn e = true) (fst (allPackages packages))) with
    | None => (None, Some (NotFound "package not found" []))
    | Some e => (Some e, snd (allPackages packages))
    end.
Proof.
  unfold FindPackage.
  rewrite ForeachPackage_total by (intros ? ?; done).
  rewrite FindPackage_env_last.
  destruct (last _); [|done]. by destruct (snd (allPackages packages)).
Qed.

Lemma FindPackage_last_accepted (packages : Store) (fn : PackageEnvelope -> bool)
      pre e post err :
  allPackages packages = (pre ++ e :: post, err) ->
  fn e = true ->
  Forall (fun x => fn x = false) post ->
  FindPackage packages fn = (Some e, err).
Proof.
  intros Hall He Hpost. rewrite FindPackage_visited, Hall. simpl.
  rewrite filter_app, filter_cons, decide_True, (filter_rejected fn post) by done.
  by rewrite last_snoc.
Qed.

(** C6 (amended).  [FindPackage] returns the last envelope, in store
    enumeration order, that satisfies the predicate, together with the
    error of the enumeration when the store failed part-way; it returns
    not-found when no enumerated envelope satisfies the predicate. *)
Theorem FindPackage_last (packages : Store) (fn : PackageEnvelope -> bool)
        (es : list PackageEnvelope) (err : option error) :
  allPackages packages = (es, err) ->
  (Forall (fun e => fn e = false) es ->
     FindPackage packages fn = (None, Some (NotFound "package not found" []))) /\
  (forall pre e post,
      es = (pre ++ e :: post)%list ->
      fn e = true ->
      Forall (fun x => fn x = false) post ->
      FindPackage packages fn = (Some e, err)).
Proof.
  intros Hall. split.
  - intros Hnone. rewrite FindPackage_visited, Hall. simpl.
    by rewrite filter_rejected.
  - intros pre e post -> He Hpost.
    by apply (FindPackage_last_accepted packages fn pre e post err).
Qed.

End FindPackageSpec.

Section FindPackageExamples.
Import pack enumeration reference.
Local Existing Instance memory.

(** C6, as stated, fails: with two accepted envelopes in the store the
    result is the second one, not the first. *)
Lemma FindPackage_not_first :
  let e1 := envelope (locator "app" "web" "1.0.0") [] in
  let e2 := envelope (locator "app" "web" "1.2.0") [] in
  let fn := fun e => bool_decide (loc.Name (Locator e) = "web") in
  let store : MemStore := [("app", [e1; e2])] in
  allPackages store = ([e1; e2], None) /\
  List.find fn [e1; e2] = Some e1 /\
  FindPackage store fn = (Some e2, None) /\
  e2 <> e1.
Proof. repeat split. discriminate. Qed.

Lemma FindPackage_last_witness :
  let e1 := envelope (locator "app" "web" "1.0.0") [] in
  let e2 := envelope (locator "app" "web" "1.2.0") [] in
  let fn := fun e => bool_decide (loc.Name (Locator e) = "web") in
  let store : MemStore := [("app", [e1; e2])] in
  FindPackage store fn = (Some e2, None).
Proof.
  intros e1 e2 fn store.
  assert (Hall : allPackages store = ([e1; e2], None)) by reflexivity.
  apply (proj2 (FindPackage_last store fn [e1; e2] None Hall) [e1] e2 []);
    [reflexivity | reflexivity | constructor].
Defined.

End FindPackageExamples.

(** ** The latest package *)
Section Latest.
Import pack enumeration.
Context {Store : Type} `{PackageService Store} `{semver.Lib}.

Lemma predicate_total (filter : PackageEnvelope -> bool) :
  total (FindLatestPackagePredicate_predicate filter).
Proof.
  intros e max. unfold FindLatestPackagePredicate_predicate.
  destruct (filter e); simpl; [|done].
  destruct max as [m|]; [|done].
  destruct (loc.SemVer m); [|done].
  destruct (loc.SemVer (Locator e)); [|done].
  by destruct (_ >? _)%Z.
Qed.

(** [FindLatestPackagePredicate] in terms of the envelopes it visits. *)
Lemma FindLatestPackagePredicate_scanned (packages : Store) repository filter :
  FindLatestPackagePredicate packages repository filter =
    match snd (scanned packages repository) with
    | Some err => Err err
    | None =>
        match after (FindLatestPackagePredicate_predicate filter)
                    (fst (scanned packages repository)) None with
        | None => Err (NotFound "latest package not found" [])
        | Some max => Ok max
        end
    end.
Proof.
  unfold FindLatestPackagePredicate, scanned.
  case_bool_decide.
  - rewrite ForeachPackageInRepo_total by apply predicate_total.
    by destruct (snd (repoPackages packages repository)).
  - rewrite ForeachPackage_total by apply predicate_total.
    by destruct (snd (allPackages packages)).
Qed.

(** Envelopes rejected by the filter leave [max] as it is. *)
Lemma after_predicate_filter (filter : PackageEnvelope -> bool) es max :
  after (FindLatestPackagePredicate_predicate filter) es max =
    after (FindLatestPackagePredicate_predicate filter)
          (base.filter (fun e => filter e = true) es) max.
Proof.
  unfold after. revert max.
  induction es as [|e es IH]; intros max; [done|].
  rewrite filter_cons. destruct (filter e) eqn:He.
  - rewrite decide_True by done. simpl. apply IH.
  - rewrite decide_False by congruence. simpl. rewrite <- IH.
    unfold FindLatestPackagePredicate_predicate at 2. by rewrite He.
Qed.

(** A parsable [max] that no later envelope exceeds stays. *)
Lemma after_predicate_stays (filter : PackageEnvelope -> bool) es m c :
  loc.SemVer m = Ok c ->
  Forall (fun e => forall v, loc.SemVer (Locator e) = Ok v ->
                             (semver.Compare v c <= 0)%Z) es ->
  after (FindLatestPackagePredicate_predicate filter) es (Some m) = Some m.
Proof.
  intros Hm. unfold after.
  induction 1 as [|e es He _ IH]; [done|]. simpl.
  replace (fst (FindLatestPackagePredicate_predicate filter e (Some m))) with (Some m);
    [exact IH|].
  unfold FindLatestPackagePredicate_predicate. rewrite Hm.
  destruct (filter e); simpl; [|done].
  destruct (loc.SemVer (Locator e)) as [v|]; [|done].
  specialize (He v eq_refl).
  destruct (Z.gtb_spec (semver.Compare v c) 0); [lia|done].
Qed.

(** An unparsable [max] stays whatever comes later. *)
Lemma after_predicate_stuck (filter : PackageEnvelope -> bool) es m err :
  loc.SemVer m = Err err ->
  after (FindLatestPackagePredicate_predicate filter) es (Some m) = Some m.
Proof.
  intros Hm. unfold after.
  induction es as [|e es IH]; [done|]. simpl.
  replace (fst (FindLatestPackagePredicate_predicate filter e (Some m))) with (Some m);
    [exact IH|].
  unfold FindLatestPackagePredicate_predicate. rewrite Hm.
  by destruct (filter e).
Qed.

(** While only accepted envelopes with a version below [c] are seen, [max]
    is nil or a locator with a version below [c]. *)
Lemma after_predicate_below (filter : PackageEnvelope -> bool) es c max :
  below c max ->
  Forall (fun e => below c (Some (Locator e))) es ->
  below c (after (FindLatestPackagePredicate_predicate filter) es max).
Proof.
  intros Hmax Hes. unfold after. revert max Hmax.
  induction Hes as [|e es He _ IH]; intros max Hmax; [done|]. simpl.
  apply IH. unfold FindLatestPackagePredicate_predicate.
  destruct (filter e); simpl; [|done].
  destruct max as [m|]; [|done].
  destruct (loc.SemVer m); [|done].
  destruct (loc.SemVer (Locator e)); [|done].
  by destruct (_ >? _)%Z.
Qed.

(** The strict maximum wins wherever it stands in the enumeration. *)
Lemma after_predicate_max `{!semver.Laws} (filter : PackageEnvelope -> bool)
      pre post ec c :
  Forall (fun e => filter e = true) (pre ++ ec :: post) ->
  loc.SemVer (Locator ec) = Ok c ->
  Forall (fun e => below c (Some (Locator e))) (pre ++ post) ->
  after (FindLatestPackagePredicate_predicate filter) (pre ++ ec :: post) None =
    Some (Locator ec).
Proof.
  intros Hacc Hc Hbelow.
  apply Forall_app in Hbelow as [Hpre Hpost].
  apply Forall_app in Hacc as [_ Hacc]. apply Forall_cons in Hacc as [Hec _].
  rewrite after_app.
  pose proof (after_predicate_below filter pre c None I Hpre) as Hmax.
  destruct (after _ pre None) as [m|]; simpl.
  - destruct Hmax as (v & Hv & Hlt).
    replace (fst (FindLatestPackagePredicate_predicate filter ec (Some m)))
      with (Some (Locator ec)).
    + apply (after_predicate_stays filter post _ c Hc).
      eapply Forall_impl; [exact Hpost|]. simpl.
      intros e (v' & Hv' & Hlt') v'' Hv''. rewrite Hv' in Hv''. injection Hv'' as <-.
      apply semver.Compare_flip in Hlt'. lia.
    + unfold FindLatestPackagePredicate_predicate. rewrite Hec, Hv, Hc. simpl.
      destruct (Z.gtb_spec (semver.Compare c v) 0); [done|lia].
  - replace (fst (FindLatestPackagePredicate_predicate filter ec None))
      with (Some (Locator ec)).
    + apply (after_predicate_stays filter post _ c Hc).
      eapply Forall_impl; [exact Hpost|]. simpl.
      intros e (v' & Hv' & Hlt') v'' Hv''. rewrite Hv' in Hv''. injection Hv'' as <-.
      apply semver.Compare_flip in Hlt'. lia.
    + unfold FindLatestPackagePredicate_predicate. by rewrite Hec.
Qed.

Lemma filter_accepted (filter : PackageEnvelope -> bool) (es : list PackageEnvelope) :
  Forall (fun e => filter e = true) (base.filter (fun e => filter e = true) es).
Proof. apply Forall_forall. intros e He. by apply list_elem_of_filter in He as [? _]. Qed.

Lemma FindLatestPackagePredicate_of_three `{!semver.Laws} (packages : Store)
      repository filter es ea eb ec a b c :
  scanned packages repository = (es, None) ->
  base.filter (fun e => filter e = true) es ≡ₚ [ea; eb; ec] ->
  loc.SemVer (Locator ea) = Ok a ->
  loc.SemVer (Locator eb) = Ok b ->
  loc.SemVer (Locator ec) = Ok c ->
  (semver.Compare a b < 0)%Z ->
  (semver.Compare b c < 0)%Z ->
  FindLatestPackagePredicate packages repository filter = Ok (Locator ec).
Proof.
  intros Hscan Hperm Ha Hb Hc Hab Hbc.
  rewrite FindLatestPackagePredicate_scanned, Hscan. simpl.
  rewrite after_predicate_filter.
  pose proof (filter_accepted filter es) as Hacc.
  assert (Hin : ec ∈ base.filter (fun e => filter e = true) es)
    by (rewrite Hperm; set_solver).
  apply list_elem_of_split in Hin as (pre & post & Hsplit).
  rewrite Hsplit in *.
  assert (Hrest : pre ++ post ≡ₚ [ea; eb]).
  { apply (Permutation_cons_inv (a := ec)).
    rewrite Permutation_middle, Hperm.
    change [ea; eb; ec] with ([ea; eb] ++ [ec]).
    by rewrite (Permutation_app_comm [ea; eb] [ec]). }
  rewrite (after_predicate_max filter pre post ec c); [done..|].
  rewrite Hrest. repeat constructor.
  - exists a. split; [done|].
    apply semver.Compare_flip. by apply (semver.Compare_trans a b c).
  - exists b. split; [done|]. by apply semver.Compare_flip.
Qed.

(** C2.  When the envelopes accepted by the filter are three envelopes with
    valid versions [a < b < c], [FindLatestPackagePredicate] returns the
    locator of the envelope at [c]; the same holds for every other
    enumeration that visits the same accepted envelopes in another order,
    so the result does not depend on the visitation order. *)
Theorem FindLatestPackagePredicate_three `{!semver.Laws} (packages packages' : Store)
        repository filter es es' ea eb ec a b c :
  scanned packages repository = (es, None) ->
  base.filter (fun e => filter e = true) es ≡ₚ [ea; eb; ec] ->
  loc.SemVer (Locator ea) = Ok a ->
  loc.SemVer (Locator eb) = Ok b ->
  loc.SemVer (Locator ec) = Ok c ->
  (semver.Compare a b < 0)%Z ->
  (semver.Compare b c < 0)%Z ->
  FindLatestPackagePredicate packages repository filter = Ok (Locator ec) /\
  (scanned packages' repository = (es', None) ->
   base.filter (fun e => filter e = true) es' ≡ₚ
     base.filter (fun e => filter e = true) es ->
   FindLatestPackagePredicate packages' repository filter =
     FindLatestPackagePredicate packages repository filter).
Proof.
  intros Hscan Hperm Ha Hb Hc Hab Hbc.
  assert (Hfirst : FindLatestPackagePredicate packages repository filter = Ok (Locator ec))
    by (by apply (FindLatestPackagePredicate_of_three _ _ _ es ea eb ec a b c)).
  split; [exact Hfirst|].
  intros Hscan' Hperm'. rewrite Hfirst.
  apply (FindLatestPackagePredicate_of_three _ _ _ es' ea eb ec a b c); try done.
  by rewrite Hperm'.
Qed.

(** An accepted envelope with an unparsable version that is visited first
    is returned, whatever follows it. *)
Lemma FindLatestPackagePredicate_first_unparsable (packages : Store)
      repository filter e es err :
  scanned packages repository = (e :: es, None) ->
  filter e = true ->
  loc.SemVer (Locator e) = Err err ->
  FindLatestPackagePredicate packages repository filter = Ok (Locator e).
Proof.
  intros Hscan He Herr.
  rewrite FindLatestPackagePredicate_scanned, Hscan. cbn [fst snd].
  change (e :: es) with ([e] ++ es). rewrite after_app.
  replace (after (FindLatestPackagePredicate_predicate filter) [e] None)
    with (Some (Locator e)).
  - by rewrite (after_predicate_stuck filter es _ err).
  - unfold after, FindLatestPackagePredicate_predicate. simpl. by rewrite He.
Qed.

(** An unparsable version never makes the scan fail: when the enumeration
    succeeds the result is a locator or not-found. *)
Lemma FindLatestPackagePredicate_no_parse_error (packages : Store)
      repository filter es :
  scanned packages repository = (es, None) ->
  (exists max, FindLatestPackagePredicate packages repository filter = Ok max) \/
  FindLatestPackagePredicate packages repository filter =
    Err (NotFound "latest package not found" []).
Proof.
  intros Hscan. rewrite FindLatestPackagePredicate_scanned, Hscan. simpl.
  destruct (after _ es None); eauto.
Qed.

(** When the locator that [FindLatestPackage] resolves to has a version
    that does not parse, [FindPackageUpdate] returns the parse error. *)
Lemma FindPackageUpdate_latest_unparsable (packages : Store)
      (pkg latestPackage : loc.Locator) (currentVersion : semver.Version) err :
  loc.SemVer pkg = Ok currentVersion ->
  FindLatestPackage packages pkg = Ok latestPackage ->
  loc.SemVer latestPackage = Err err ->
  FindPackageUpdate packages pkg = Err err.
Proof.
  intros Hpkg Hlatest Hver. unfold FindPackageUpdate.
  by rewrite Hlatest, Hpkg, Hver.
Qed.

(** C5 (amended).  For a locator [pkg] with a valid version and a store in
    which [FindLatestPackage] resolves to a locator whose version is valid
    too: [FindPackageUpdate] returns not-found when the latest version is
    not strictly greater than the version of [pkg] (so also when they
    compare equal), and otherwise the update from [pkg] to the latest
    locator. *)
Theorem FindPackageUpdate_spec (packages : Store) (pkg latestPackage : loc.Locator)
        (currentVersion latestVersion : semver.Version) :
  loc.SemVer pkg = Ok currentVersion ->
  FindLatestPackage packages pkg = Ok latestPackage ->
  loc.SemVer latestPackage = Ok latestVersion ->
  ((semver.Compare latestVersion currentVersion <= 0)%Z ->
     FindPackageUpdate packages pkg =
       Err (NotFound "%v is already at the latest version" [loc.String pkg])) /\
  ((semver.Compare latestVersion currentVersion > 0)%Z ->
     FindPackageUpdate packages pkg =
       Ok {| storage.From := pkg; storage.To := latestPackage |}).
Proof.
  intros Hpkg Hlatest Hver. unfold FindPackageUpdate.
  rewrite Hlatest, Hpkg, Hver.
  destruct (Z.gtb_spec (semver.Compare latestVersion currentVersion) 0);
    split; intros; (done || lia).
Qed.

End Latest.

(** ** The reference semantic versions satisfy the laws *)
Lemma numeric_laws : @semver.Laws reference.numeric.
Proof.
  split.
  - intros [a1 a2 a3] [b1 b2 b3]. cbn. unfold reference.Compare. cbn.
    repeat match goal with
           | |- context [(?x >? ?y)%Z] => destruct (Z.gtb_spec x y)
           | |- context [(?x <? ?y)%Z] => destruct (Z.ltb_spec x y)
           end; lia.
  - intros [a1 a2 a3] [b1 b2 b3] [c1 c2 c3]. cbn. unfold reference.Compare. cbn.
    repeat match goal with
           | |- context [(?x >? ?y)%Z] => destruct (Z.gtb_spec x y)
           | |- context [(?x <? ?y)%Z] => destruct (Z.ltb_spec x y)
           end; lia.
Qed.

Section LatestExamples.
Import pack enumeration reference.
Local Existing Instance memory.
Local Existing Instance numeric.

Lemma CheckUpdatePackage_iff_witness :
  CheckUpdatePackage (locator "app" "web" "1.0.0") (locator "app" "web" "1.2.0") = None.
Proof.
  apply (proj1 (@CheckUpdatePackage_iff numeric
                  (locator "app" "web" "1.0.0") (locator "app" "web" "1.2.0")
                  {| Major := 1; Minor := 0; Patch := 0 |}
                  {| Major := 1; Minor := 2; Patch := 0 |}
                  eq_refl eq_refl)).
  repeat split.
Defined.

(** The scenario of a downgrade: the reverse update is rejected. *)
Lemma CheckUpdatePackage_downgrade :
  CheckUpdatePackage (locator "app" "web" "1.2.0") (locator "app" "web" "1.0.0") =
    Some (BadParameter
            "update version (%v) must be greater than the currently installed version (%v)"
            ["1.0.0"; "1.2.0"]).
Proof. by vm_compute. Qed.

Lemma FindLatestPackagePredicate_three_witness :
  let ea := envelope (locator "app" "web" "1.0.0") [] in
  let eb := envelope (locator "app" "web" "1.2.0") [] in
  let ec := envelope (locator "app" "web" "1.10.0") [] in
  let other := envelope (locator "app" "db" "9.0.0") [] in
  let filter := fun e => bool_decide (loc.Name (Locator e) = "web") in
  let store : MemStore := [("app", [eb; other; ec; ea])] in
  let store' : MemStore := [("app", [ec; ea; eb; other])] in
  FindLatestPackagePredicate store "app" filter = Ok (locator "app" "web" "1.10.0") /\
  FindLatestPackagePredicate store' "app" filter =
    FindLatestPackagePredicate store "app" filter.
Proof.
  intros ea eb ec other filter store store'.
  assert (Hscan : scanned store "app" = ([eb; other; ec; ea], None)) by reflexivity.
  assert (Hscan' : scanned store' "app" = ([ec; ea; eb; other], None)) by reflexivity.
  assert (Hperm : base.filter (fun e => filter e = true) [eb; other; ec; ea] ≡ₚ [ea; eb; ec]).
  { change (base.filter (fun e => filter e = true) [eb; other; ec; ea]) with [eb; ec; ea].
    by rewrite (Permutation_app_comm [eb; ec] [ea]). }
  destruct (@FindLatestPackagePredicate_three MemStore memory numeric numeric_laws
              store store' "app" filter
              [eb; other; ec; ea] [ec; ea; eb; other] ea eb ec
              {| Major := 1; Minor := 0; Patch := 0 |}
              {| Major := 1; Minor := 2; Patch := 0 |}
              {| Major := 1; Minor := 10; Patch := 0 |}
              Hscan Hperm eq_refl eq_refl eq_refl eq_refl eq_refl) as [Hc Hsame].
  split; [exact Hc|].
  apply Hsame; [exact Hscan'|].
  change (base.filter (fun e => filter e = true) [eb; other; ec; ea]) with [eb; ec; ea].
  change (base.filter (fun e => filter e = true) [ec; ea; eb; other]) with [ec; ea; eb].
  by rewrite (Permutation_app_comm [ec; ea] [eb]).
Defined.

(** C3 at a failing input.  The first accepted envelope has a version that
    does not parse; the scan returns it although an accepted envelope with
    a valid version follows. *)
Theorem FindLatestPackagePredicate_returns_unparsable :
  let bad := envelope (locator "app" "web" "not-a-version") [] in
  let good := envelope (locator "app" "web" "1.0.0") [] in
  let store : MemStore := [("app", [bad; good])] in
  loc.SemVer (Locator bad) = Err (External "not-a-version is not in dotted-tri format") /\
  loc.SemVer (Locator good) = Ok {| Major := 1; Minor := 0; Patch := 0 |} /\
  FindLatestPackagePredicate store "app" (fun _ => true) = Ok (Locator bad) /\
  FindLatestPackage store (locator "app" "web" "0.0.1") = Ok (Locator bad).
Proof. repeat split. Qed.

(** C5, as stated, fails: [FindLatestPackage] resolves, to a locator whose
    version does not parse, and [FindPackageUpdate] returns the parse
    error, which is neither not-found nor an update. *)
Lemma FindPackageUpdate_parse_error :
  let bad := envelope (locator "app" "web" "not-a-version") [] in
  let good := envelope (locator "app" "web" "1.0.0") [] in
  let store : MemStore := [("app", [bad; good])] in
  let pkg := locator "app" "web" "0.0.1" in
  loc.SemVer pkg = Ok {| Major := 0; Minor := 0; Patch := 1 |} /\
  FindLatestPackage store pkg = Ok (Locator bad) /\
  FindPackageUpdate store pkg =
    Err (External "not-a-version is not in dotted-tri format").
Proof. repeat split. Qed.

Lemma FindPackageUpdate_spec_witness :
  let store : MemStore :=
    [("app", [envelope (locator "app" "web" "1.0.0") [("installed", "installed")];
              envelope (locator "app" "web" "1.2.0") []])] in
  FindPackageUpdate store (locator "app" "web" "1.0.0") =
    Ok {| storage.From := locator "app" "web" "1.0.0";
          storage.To := locator "app" "web" "1.2.0" |}.
Proof.
  intros store.
  assert (Hlatest : FindLatestPackage store (locator "app" "web" "1.0.0") =
                      Ok (locator "app" "web" "1.2.0")) by reflexivity.
  apply (proj2 (@FindPackageUpdate_spec MemStore memory numeric store
                  (locator "app" "web" "1.0.0") (locator "app" "web" "1.2.0")
                  {| Major := 1; Minor := 0; Patch := 0 |}
                  {| Major := 1; Minor := 2; Patch := 0 |}
                  eq_refl Hlatest eq_refl)).
  reflexivity.
Defined.

End LatestExamples.

(** ** Newer packages *)
Section Newer.
Import pack enumeration.
Context {Store : Type} `{PackageService Store} `{semver.Lib}.

(** The scan of [FindNewerPackages] stops with a parse error as soon as the
    envelopes contain one with the filter's name and an unparsable
    version. *)
Lemma FindNewerPackages_range_aborts (filter : loc.Locator) packs result e perr :
  e ∈ packs ->
  loc.Name (Locator e) = loc.Name filter ->
  loc.SemVer (Locator e) = Err perr ->
  exists st err,
    ForeachPackageInRepo_range (FindNewerPackages_fn filter) packs result = (st, Some err) /\
    (loc.SemVer filter = Err err \/
     exists e', e' ∈ packs /\ loc.Name (Locator e') = loc.Name filter /\
                loc.SemVer (Locator e') = Err err).
Proof.
  intros Hin Hname Hperr. revert result.
  induction packs as [|pkg packs IH]; intros result; [by apply elem_of_nil in Hin|].
  simpl. unfold FindNewerPackages_fn at 1.
  case_bool_decide as Hpkg.
  - assert (Hin' : e ∈ packs).
    { destruct (proj1 (elem_of_cons _ _ _) Hin) as [Heq|Hrest]; [congruence|done]. }
    destruct (IH Hin' result) as (st & err & -> & [Hf|(e' & He' & Hn' & Hp')]).
    + exists st, err. eauto.
    + exists st, err. split; [done|]. right. exists e'.
      split; [apply elem_of_cons; by right|done].
  - destruct (loc.SemVer filter) as [vera|ferr] eqn:Hfilter.
    + destruct (loc.SemVer (Locator pkg)) as [verb|err] eqn:Hverb.
      * assert (Hin' : e ∈ packs).
        { destruct (proj1 (elem_of_cons _ _ _) Hin) as [Heq|Hrest]; [congruence|done]. }
        assert (Hstep : exists result',
                   (if (semver.Compare verb vera >? 0)%Z
                    then (result ++ [Locator pkg], @None error)
                    else (result, None)) = (result', None))
          by (destruct (_ >? _)%Z; eauto).
        destruct Hstep as (result' & ->).
        destruct (IH Hin' result') as (st & err & -> & [Hf|(e' & He' & Hn' & Hp')]).
        -- exists st, err. eauto.
        -- exists st, err. split; [done|]. right. exists e'.
      split; [apply elem_of_cons; by right|done].
      * exists result, err. split; [done|]. right. exists pkg.
        split; [apply list_elem_of_here|]. split; [|done].
        by destruct (decide (loc.Name (Locator pkg) = loc.Name filter)).
    + exists result, ferr. eauto.
Qed.

(** C7 (amended).  In [FindNewerPackages] an envelope that has the filter's
    name and a version string that fails to parse is not skipped: the scan
    stops and the whole call returns a parse error, that of the filter's
    version or of such an envelope's version. *)
Theorem FindNewerPackages_unparsable_aborts (packages : Store) (filter : loc.Locator)
        packs e perr :
  GetPackages packages (loc.Repository filter) = Ok packs ->
  e ∈ packs ->
  loc.Name (Locator e) = loc.Name filter ->
  loc.SemVer (Locator e) = Err perr ->
  exists err,
    FindNewerPackages packages filter = Err err /\
    (loc.SemVer filter = Err err \/
     exists e', e' ∈ packs /\ loc.Name (Locator e') = loc.Name filter /\
                loc.SemVer (Locator e') = Err err).
Proof.
  intros Hpacks Hin Hname Hperr.
  unfold FindNewerPackages, ForeachPackageInRepo. rewrite Hpacks.
  destruct (FindNewerPackages_range_aborts filter packs [] e perr Hin Hname Hperr)
    as (st & err & -> & Herr).
  by exists err.
Qed.

(** Envelopes with another name are passed over without being parsed. *)
Lemma FindNewerPackages_other_name (filter : loc.Locator) e result :
  loc.Name (Locator e) <> loc.Name filter ->
  FindNewerPackages_fn filter e result = (result, None).
Proof. intros Hname. unfold FindNewerPackages_fn. by rewrite bool_decide_true. Qed.

End Newer.

Section NewerExamples.
Import pack enumeration reference.
Local Existing Instance memory.
Local Existing Instance numeric.

(** C7, as stated, fails: one envelope with an unparsable version makes the
    whole call return an error, although a newer package follows it. *)
Lemma FindNewerPackages_unparsable_fails :
  let bad := envelope (locator "app" "web" "broken") [] in
  let newer := envelope (locator "app" "web" "2.0.0") [] in
  let store : MemStore := [("app", [bad; newer])] in
  FindNewerPackages store (locator "app" "web" "1.0.0") =
    Err (External "broken is not in dotted-tri format") /\
  FindNewerPackages [("app", [newer])] (locator "app" "web" "1.0.0") =
    Ok [locator "app" "web" "2.0.0"].
Proof. split; reflexivity. Qed.

Lemma FindNewerPackages_unparsable_aborts_witness :
  let bad := envelope (locator "app" "web" "broken") [] in
  let newer := envelope (locator "app" "web" "2.0.0") [] in
  let store : MemStore := [("app", [newer; bad])] in
  exists err, FindNewerPackages store (locator "app" "web" "1.0.0") = Err err.
Proof.
  intros bad newer store.
  assert (Hpacks : GetPackages store "app" = Ok [newer; bad]) by reflexivity.
  assert (Hin : bad ∈ [newer; bad]) by (apply elem_of_cons; right; apply list_elem_of_here).
  destruct (@FindNewerPackages_unparsable_aborts MemStore memory numeric
              store (locator "app" "web" "1.0.0") [newer; bad] bad
              (External "broken is not in dotted-tri format")
              Hpacks Hin eq_refl eq_refl) as (err & Herr & _).
  exists err. exact Herr.
Defined.

End NewerExamples.

(** ** Dispatch of phase executors *)
Section DispatchSpec.
Import update.
Context `{Env}.

(** Decide the tests of the switch once the executor name is known. *)
Ltac switch :=
  repeat first
    [ rewrite bool_decide_true by reflexivity
    | rewrite bool_decide_false by discriminate ].

(** C4.  The dispatcher returns the plan-integrity error when the executor
    name is empty; otherwise the unsupported-operation error when the plan
    is not an update; otherwise the unknown-executor error when the name is
    outside the vocabulary; and for a name of the vocabulary, in an update
    plan, the result of the constructor that the table gives for that name,
    unchanged.  The names of the table are exactly the vocabulary. *)
Theorem fsmSpec_dispatch (c : FSMConfig) (p : ExecutorParams) (remote : fsmRemote) :
  (Executor (Phase p) = "" ->
     fsmSpec c p remote =
       Err (BadParameter "error in plan, executor for phase %q was not specified"
                         [ID (Phase p)])) /\
  (Executor (Phase p) <> "" ->
   OperationType (Plan p) <> OperationUpdate ->
     fsmSpec c p remote =
       Err (BadParameter "unsupported operation %q" [OperationType (Plan p)])) /\
  (Executor (Phase p) <> "" ->
   OperationType (Plan p) = OperationUpdate ->
   Executor (Phase p) ∉ vocabulary ->
     fsmSpec c p remote =
       Err (BadParameter
              "phase %q requires executor %q (potential mismatch between upgrade versions)"
              [ID (Phase p); Executor (Phase p)])) /\
  (OperationType (Plan p) = OperationUpdate ->
   forall r, (Executor (Phase p), r) ∈ constructors c p remote ->
     fsmSpec c p remote = r) /\
  map fst (constructors c p remote) = vocabulary.
Proof.
  repeat split.
  - intros Hempty. unfold fsmSpec. by rewrite bool_decide_true.
  - intros Hname Hop. unfold fsmSpec.
    by rewrite bool_decide_false, bool_decide_true.
  - intros Hname Hop Hout. unfold fsmSpec.
    rewrite bool_decide_false by done.
    rewrite (bool_decide_false (_ <> _)) by (intros Hne; exact (Hne Hop)).
    unfold vocabulary in Hout. rewrite !not_elem_of_cons in Hout.
    cbv zeta. repeat (rewrite bool_decide_false by tauto). done.
  - intros Hop r Hin. unfold constructors in Hin.
    repeat (apply elem_of_cons in Hin as [Hin|Hin]);
      try (by apply elem_of_nil in Hin);
      injection Hin as Hname ->; unfold fsmSpec; rewrite Hname;
      rewrite (bool_decide_false (OperationType _ <> _)) by (intros Hne; exact (Hne Hop));
      cbv zeta; switch; reflexivity.
Qed.

End DispatchSpec.

Section DispatchExamples.
Import update reference.
Local Existing Instance named.

Lemma fsmSpec_dispatch_witness :
  fsmSpec tt ("operation_update", ("/init", "")) tt =
    Err (BadParameter "error in plan, executor for phase %q was not specified" ["/init"]) /\
  fsmSpec tt ("operation_install", ("/init", "update_init")) tt =
    Err (BadParameter "unsupported operation %q" ["operation_install"]) /\
  fsmSpec tt ("operation_update", ("/kernel", "update_kernel")) tt =
    Err (BadParameter
           "phase %q requires executor %q (potential mismatch between upgrade versions)"
           ["/kernel"; "update_kernel"]) /\
  fsmSpec tt ("operation_update", ("/config", "config")) tt = Ok "NewUpdatePhaseConfig".
Proof.
  split; [|split; [|split]].
  - apply (proj1 (@fsmSpec_dispatch named tt ("operation_update", ("/init", "")) tt)).
    reflexivity.
  - apply (proj1 (proj2 (@fsmSpec_dispatch named tt
                           ("operation_install", ("/init", "update_init")) tt)));
      discriminate.
  - apply (proj1 (proj2 (proj2 (@fsmSpec_dispatch named tt
                                  ("operation_update", ("/kernel", "update_kernel")) tt))));
      [discriminate | reflexivity |].
    intros Hin. unfold vocabulary in Hin.
    repeat (apply elem_of_cons in Hin as [Hin|Hin]; [discriminate|]).
    by apply elem_of_nil in Hin.
  - apply (proj1 (proj2 (proj2 (proj2 (@fsmSpec_dispatch named tt
                                         ("operation_update", ("/config", "config")) tt)))));
      [reflexivity|].
    unfold constructors.
    repeat first [apply list_elem_of_here | apply list_elem_of_further].
Defined.

End DispatchExamples.

(** ** Configuration packages *)
Section ConfigSpec.
Import pack enumeration.
Context {Store : Type} `{PackageService Store} `{Archive} `{loc.Consts}.

(** The entries of [allLabels]: the caller's entry where there is one, the
    config entry otherwise. *)
Lemma ConfigurePackage_allLabels_lookup (loc : loc.Locator) (labels : gmap string string) k :
  ConfigurePackage_allLabels loc labels !! k =
    match labels !! k with
    | Some v => Some v
    | None =>
        ({[ ConfigLabel := loc.String (loc.ZeroVersion loc) ]} : gmap string string) !! k
    end.
Proof.
  unfold ConfigurePackage_allLabels. revert k.
  apply (map_fold_weak_ind
           (fun (allLabels : gmap string string) (labels : gmap string string) =>
              forall k, allLabels !! k =
                        match labels !! k with
                        | Some v => Some v
                        | None =>
                            ({[ ConfigLabel := loc.String (loc.ZeroVersion loc) ]}
                             : gmap string string) !! k
                        end)).
  - intros k. by rewrite lookup_empty.
  - intros i x m r Hi IH k. destruct (decide (i = k)) as [->|Hne].
    + by rewrite !lookup_insert_eq.
    + rewrite !lookup_insert_ne by done. apply IH.
Qed.

(** C10.  [ConfigurePackage] hands to [CreatePackage] the label set obtained
    from the config entry (key [config], value the zero-version string of
    [loc]) by inserting every caller label over it; a caller label with the
    key [config] therefore replaces the zero-version value. *)
Theorem ConfigurePackage_labels (p : Store) (loc confLoc : loc.Locator)
        (args : list string) (labels : gmap string string) (reader : Reader) :
  GetConfigPackage p loc confLoc args = Ok reader ->
  let allLabels := ConfigurePackage_allLabels loc labels in
  ConfigurePackage p loc confLoc args labels =
    (fst (CreatePackage p confLoc reader allLabels),
     match snd (CreatePackage p confLoc reader allLabels) with
     | Err err => Some err
     | Ok _ => None
     end) /\
  allLabels =
    foldr (uncurry (fun k v allLabels => <[k := v]> allLabels))
          {[ ConfigLabel := loc.String (loc.ZeroVersion loc) ]}
          (map_to_list labels) /\
  (forall k v, labels !! k = Some v -> allLabels !! k = Some v) /\
  (forall v, labels !! ConfigLabel = Some v -> allLabels !! ConfigLabel = Some v) /\
  (labels !! ConfigLabel = None ->
   allLabels !! ConfigLabel = Some (loc.String (loc.ZeroVersion loc))).
Proof.
  intros Hreader allLabels. repeat split.
  - unfold ConfigurePackage. rewrite Hreader. fold allLabels.
    by destruct (CreatePackage p confLoc reader allLabels) as [p' [e|err]].
  - unfold allLabels, ConfigurePackage_allLabels. apply map_fold_foldr.
  - intros k v Hk. unfold allLabels.
    by rewrite ConfigurePackage_allLabels_lookup, Hk.
  - intros v Hv. unfold allLabels.
    by rewrite ConfigurePackage_allLabels_lookup, Hv.
  - intros Hnone. unfold allLabels.
    by rewrite ConfigurePackage_allLabels_lookup, Hnone, lookup_singleton_eq.
Qed.

End ConfigSpec.

(** ** Finding the configuration package that was created *)
Section RoundTrip.
Import pack enumeration.
Context {Store : Type} `{PackageService Store} `{Archive} `{loc.Consts}.

(** An envelope returned by [FindPackage] was enumerated and satisfies the
    predicate. *)
Lemma FindPackage_Some (packages : Store) (fn : PackageEnvelope -> bool) e err :
  FindPackage packages fn = (Some e, err) ->
  e ∈ fst (allPackages packages) /\ fn e = true.
Proof.
  unfold FindPackage.
  rewrite ForeachPackage_total by (intros ? ?; done).
  rewrite FindPackage_env_last.
  destruct (last (filter _ _)) as [e'|] eqn:Hlast; [|discriminate].
  intros [= <- _]. apply last_Some in Hlast as (l' & Hl').
  assert (Hin : e' ∈ filter (fun e => fn e = true) (fst (allPackages packages))).
  { rewrite Hl'. apply elem_of_app. right. apply list_elem_of_here. }
  apply list_elem_of_filter in Hin. tauto.
Qed.

(** What [FindConfigPackage] returns is the locator of what [FindPackage]
    found. *)
Lemma FindConfigPackage_Ok (packages : Store) (filter l : loc.Locator) :
  FindConfigPackage packages filter = Ok l ->
  exists e,
    FindPackage packages
      (fun e => HasLabel e ConfigLabel (loc.String (loc.ZeroVersion filter))) =
      (Some e, None) /\
    Locator e = l.
Proof.
  unfold FindConfigPackage.
  destruct (FindPackage _ _) as [[e|] [err|]]; try discriminate.
  - by destruct (IsNotFound err).
  - intros [= <-]. by exists e.
  - by destruct (IsNotFound err).
Qed.

(** For a locator with another zero-version string, what
    [FindConfigPackage] returns after the creation is the locator of a
    package that was in the store before. *)
Lemma FindConfigPackage_other_line (p' : Store) (loc loc2 l : loc.Locator)
      (e : PackageEnvelope) (es es' : list PackageEnvelope) :
  allPackages p' = (es', None) ->
  es' ≡ₚ e :: es ->
  RuntimeLabels e !! ConfigLabel = Some (loc.String (loc.ZeroVersion loc)) ->
  loc.String (loc.ZeroVersion loc2) <> loc.String (loc.ZeroVersion loc) ->
  FindConfigPackage p' loc2 = Ok l ->
  exists e2, e2 ∈ es /\ Locator e2 = l /\
             HasLabel e2 ConfigLabel (loc.String (loc.ZeroVersion loc2)) = true.
Proof.
  intros Hes' Hperm Hown Hother Hfound.
  apply FindConfigPackage_Ok in Hfound as (e2 & Hfind & <-).
  apply FindPackage_Some in Hfind as [Hin Hlabel]. rewrite Hes' in Hin. simpl in Hin.
  rewrite Hperm in Hin. apply elem_of_cons in Hin as [->|Hin].
  - unfold HasLabel in Hlabel. apply bool_decide_eq_true in Hlabel. congruence.
  - by exists e2.
Qed.

(** C8 (amended).  Let [ConfigurePackage] succeed with caller labels that do
    not set the key [config] to another value, in a store that held no
    package labelled with the zero-version string of [loc], and let the
    package service keep its contract: the created package has a locator
    that no package of the store had, it carries the given locator and
    labels, and the store left behind enumerates the old envelopes and the
    created one.  Then [FindConfigPackage] for [loc] returns the locator of
    the created package, and for a locator with another zero-version string
    it does not return that locator. *)
Theorem ConfigurePackage_FindConfigPackage (p p' : Store) (loc confLoc : loc.Locator)
        (args : list string) (labels : gmap string string)
        (es es' : list PackageEnvelope) :
  ConfigurePackage p loc confLoc args labels = (p', None) ->
  (labels !! ConfigLabel = None \/
   labels !! ConfigLabel = Some (loc.String (loc.ZeroVersion loc))) ->
  allPackages p = (es, None) ->
  Forall (fun e => HasLabel e ConfigLabel (loc.String (loc.ZeroVersion loc)) = false) es ->
  allPackages p' = (es', None) ->
  (forall reader allLabels e,
      CreatePackage p confLoc reader allLabels = (p', Ok e) ->
      Forall (fun x => Locator x <> confLoc) es /\
      Locator e = confLoc /\ RuntimeLabels e = allLabels /\ es' ≡ₚ e :: es) ->
  FindConfigPackage p' loc = Ok confLoc /\
  (forall loc2,
      loc.String (loc.ZeroVersion loc2) <> loc.String (loc.ZeroVersion loc) ->
      FindConfigPackage p' loc2 <> Ok confLoc).
Proof.
  intros Hconf Hlabels Hes Hfree Hes' Hcontract.
  unfold ConfigurePackage in Hconf.
  destruct (GetConfigPackage p loc confLoc args) as [reader|]; [|discriminate].
  destruct (CreatePackage p confLoc reader (ConfigurePackage_allLabels loc labels))
    as [p'' [e|err]] eqn:Hcreate; [|discriminate].
  injection Hconf as ->.
  destruct (Hcontract _ _ _ Hcreate) as (Hfresh & Hloc & Hlab & Hperm).
  assert (Hown : RuntimeLabels e !! ConfigLabel = Some (loc.String (loc.ZeroVersion loc))).
  { rewrite Hlab, ConfigurePackage_allLabels_lookup.
    destruct Hlabels as [-> | ->]; [apply lookup_singleton_eq|done]. }
  split.
  - assert (Hin : e ∈ es') by (rewrite Hperm; apply list_elem_of_here).
    apply list_elem_of_split in Hin as (pre & post & ->).
    rewrite <- Permutation_middle in Hperm. apply Permutation_cons_inv in Hperm.
    rewrite <- Hperm in Hfree. apply Forall_app in Hfree as [_ Hpost].
    unfold FindConfigPackage.
    rewrite (FindPackage_last_accepted p' _ pre e post None Hes').
    + by rewrite Hloc.
    + unfold HasLabel. by rewrite bool_decide_true.
    + exact Hpost.
  - intros loc2 Hother Hfound.
    destruct (FindConfigPackage_other_line p' loc loc2 confLoc e es es'
                Hes' Hperm Hown Hother Hfound) as (e2 & Hin & Hloc2 & _).
    by apply (proj1 (Forall_forall _ _) Hfresh e2 Hin).
Qed.

End RoundTrip.

Section ConfigExamples.
Import pack enumeration reference.
Local Existing Instance memory.
Local Existing Instance plain.
Local Existing Instance zero.

Lemma ConfigurePackage_labels_witness :
  let web := locator "app" "web" "1.0.0" in
  let conf := locator "app" "web-config" "1.0.0" in
  let store : MemStore := [("app", [envelope web []])] in
  let labels : gmap string string :=
    {[ "config" := "other/app:0.0.0"; "purpose" := "runtime" ]} in
  ConfigurePackage_allLabels web labels !! ConfigLabel = Some "other/app:0.0.0" /\
  ConfigurePackage_allLabels web ∅ !! ConfigLabel = Some "app/web:0.0.0".
Proof.
  intros web conf store labels.
  assert (Hreader : GetConfigPackage store web conf [] = Ok []) by reflexivity.
  split.
  - apply (proj1 (proj2 (proj2 (proj2
             (@ConfigurePackage_labels MemStore memory plain zero
                store web conf [] labels [] Hreader))))).
    by vm_compute.
  - apply (proj2 (proj2 (proj2 (proj2
             (@ConfigurePackage_labels MemStore memory plain zero
                store web conf [] ∅ [] Hreader))))).
    by vm_compute.
Defined.

(** C8, as stated, fails: a caller label with the key [config] replaces the
    zero-version value, so the created package is not found for [loc] and
    is found for a locator with another zero-version string. *)
Lemma ConfigurePackage_FindConfigPackage_overridden :
  let web := locator "app" "web" "1.0.0" in
  let conf := locator "app" "web-config" "1.0.0" in
  let other := locator "other" "app" "3.0.0" in
  let store : MemStore := [("app", [envelope web []])] in
  let labels : gmap string string := {[ "config" := "other/app:0.0.0" ]} in
  let store' := fst (ConfigurePackage store web conf [] labels) in
  snd (ConfigurePackage store web conf [] labels) = None /\
  Forall (fun e => HasLabel e ConfigLabel (loc.String (loc.ZeroVersion web)) = false)
         (fst (allPackages store)) /\
  loc.String (loc.ZeroVersion other) <> loc.String (loc.ZeroVersion web) /\
  FindConfigPackage store' web =
    Err (NotFound "no configuration package for %v found" ["app/web:1.0.0"]) /\
  FindConfigPackage store' other = Ok conf.
Proof.
  vm_compute.
  split; [reflexivity|]. split; [repeat constructor|]. split; [discriminate|].
  split; reflexivity.
Qed.

Lemma ConfigurePackage_FindConfigPackage_witness :
  let web := locator "app" "web" "1.0.0" in
  let conf := locator "app" "web-config" "1.0.0" in
  let store : MemStore := [("app", [envelope web []])] in
  let labels : gmap string string := {[ "purpose" := "runtime" ]} in
  let created := {| Locator := conf;
                    RuntimeLabels := ConfigurePackage_allLabels web labels |} in
  let store' : MemStore := [("app", [envelope web []; created])] in
  ConfigurePackage store web conf [] labels = (store', None) /\
  FindConfigPackage store' web = Ok conf /\
  FindConfigPackage store' (locator "other" "app" "3.0.0") <> Ok conf.
Proof.
  intros web conf store labels created store'.
  assert (Hconf : ConfigurePackage store web conf [] labels = (store', None))
    by (vm_compute; reflexivity).
  assert (Hes : allPackages store = ([envelope web []], None))
    by (vm_compute; reflexivity).
  assert (Hes' : allPackages store' = ([envelope web []; created], None))
    by (vm_compute; reflexivity).
  assert (Hlabels : labels !! ConfigLabel = None) by (vm_compute; reflexivity).
  assert (Hfree : Forall (fun e => HasLabel e ConfigLabel
                                     (loc.String (loc.ZeroVersion web)) = false)
                         [envelope web []]).
  { constructor; [vm_compute; reflexivity | constructor]. }
  split; [exact Hconf|].
  assert (Hround :
    FindConfigPackage store' web = Ok conf /\
    (forall loc2,
        loc.String (loc.ZeroVersion loc2) <> loc.String (loc.ZeroVersion web) ->
        FindConfigPackage store' loc2 <> Ok conf)).
  { refine (@ConfigurePackage_FindConfigPackage MemStore memory plain zero
              store store' web conf [] labels
              [envelope web []] [envelope web []; created]
              Hconf (or_introl Hlabels) Hes Hfree Hes' _).
    clear. subst store' created.
    generalize (ConfigurePackage_allLabels web labels). intros allLabels.
    intros reader allLabels' e Hcreate.
    injection Hcreate as <- <-.
    split; [repeat constructor; discriminate|].
    split; [reflexivity|]. split; [reflexivity|]. apply Permutation_swap. }
  destruct Hround as [Hfound Hothers].
  split; [exact Hfound|]. apply Hothers. discriminate.
Defined.

End ConfigExamples.

(** ** Unpacking once *)
Section UnpackSpec.
Import pack enumeration.
Context {Store World : Type} `{PackageService Store} `{OS World} `{!OSLaws}.

(** An existing directory counts as unpacked. *)
Lemma IsUnpacked_dir (targetDir : string) (w : World) info :
  Stat w targetDir = Ok info -> IsDir info = true ->
  IsUnpacked targetDir w = (w, [CallStat targetDir], Ok true).
Proof. intros Hstat Hdir. unfold IsUnpacked. by rewrite Hstat, Hdir. Qed.

Lemma UnpackIfNotUnpacked_unpacked (p : Store) loc targetDir opts (w : World) info :
  Stat w targetDir = Ok info -> IsDir info = true ->
  UnpackIfNotUnpacked p loc targetDir opts w = (w, [CallStat targetDir], Ok tt).
Proof.
  intros Hstat Hdir. unfold UnpackIfNotUnpacked, bind.
  by rewrite (IsUnpacked_dir targetDir w info).
Qed.

(** A successful [Unpack] into a given directory reads and untars the
    package once and leaves the directory in place. *)
Lemma Unpack_Ok (p : Store) loc targetDir opts (w w' : World) cs :
  targetDir <> "" ->
  Unpack p loc targetDir opts w = (w', cs, Ok tt) ->
  (exists info, Stat w' targetDir = Ok info /\ IsDir info = true) /\
  reads cs = 1 /\ untars cs = 1.
Proof.
  intros Hne. unfold Unpack, bind.
  rewrite bool_decide_false by done. unfold ret, mkdirAll, readPackage, untar.
  destruct (MkdirAll w targetDir SharedDirMask) as [wa [err|]] eqn:Hmk; [discriminate|].
  destruct (ReadPackage p loc) as [[env reader]|err]; [|discriminate].
  destruct (Untar wa reader targetDir _) as [wb [err|]] eqn:Hun; [discriminate|].
  intros [= <- <-].
  apply MkdirAll_dir in Hmk as (info & Hstat & Hdir).
  split; [|done].
  by apply (Untar_dir _ _ _ _ _ _ _ Hun Hstat Hdir).
Qed.

(** C9 (amended).  For a non-empty target directory, after a successful
    first call of [UnpackIfNotUnpacked] a second call only stats the
    directory: it reads and untars nothing, returns nil and leaves the file
    system as it is.  The first call reads and untars the package once when
    the directory did not exist, and not at all when it already existed. *)
Theorem UnpackIfNotUnpacked_twice (p : Store) (loc : loc.Locator) (targetDir : string)
        (opts : option TarOptions) (w0 w1 : World) (cs1 : list call) :
  targetDir <> "" ->
  UnpackIfNotUnpacked p loc targetDir opts w0 = (w1, cs1, Ok tt) ->
  UnpackIfNotUnpacked p loc targetDir opts w1 = (w1, [CallStat targetDir], Ok tt) /\
  match Stat w0 targetDir with
  | Ok _ => reads cs1 = 0 /\ untars cs1 = 0
  | Err _ => reads cs1 = 1 /\ untars cs1 = 1
  end.
Proof.
  intros Hne. unfold UnpackIfNotUnpacked at 1. unfold bind, IsUnpacked.
  destruct (Stat w0 targetDir) as [info|err] eqn:Hstat.
  - destruct (IsDir info) eqn:Hdir; simpl; [|discriminate].
    intros [= <- <-]. split; [|done].
    by apply (UnpackIfNotUnpacked_unpacked p loc targetDir opts w0 info).
  - destruct (IsNotExist err); [|discriminate].
    destruct (Unpack p loc targetDir opts w0) as [[w' cs] [[]|err']] eqn:Hunpack;
      [|discriminate].
    simpl. intros [= <- <-].
    destruct (Unpack_Ok p loc targetDir opts w0 w' cs Hne Hunpack)
      as ((info & Hstat' & Hdir') & Hreads & Huntars).
    split; [by apply (UnpackIfNotUnpacked_unpacked p loc targetDir opts w' info)|].
    by rewrite app_nil_r.
Qed.
End UnpackSpec.

(** ** The reference file system satisfies the laws *)
Lemma dirs_laws : @enumeration.OSLaws reference.Dirs reference.dirs.
Proof.
  split.
  - intros w w' path mode. cbn. case_bool_decide; [discriminate|].
    intros [= <-]. exists true. split; [|done].
    rewrite bool_decide_true; [done|]. apply list_elem_of_here.
  - intros w w' reader dest opts err info. cbn. intros [= <- _] Hstat Hdir.
    by exists info.
Qed.

Section UnpackExamples.
Import pack enumeration reference.
Local Existing Instance memory.
Local Existing Instance dirs.

(** C9, as stated, fails: when the target directory already exists, two
    successive calls succeed and extract nothing at all. *)
Lemma UnpackIfNotUnpacked_existing_dir :
  let web := locator "app" "web" "1.0.0" in
  let store : MemStore := [("app", [envelope web []])] in
  let w0 : Dirs := ["/opt/web"] in
  UnpackIfNotUnpacked store web "/opt/web" None w0 = (w0, [CallStat "/opt/web"], Ok tt) /\
  reads ([CallStat "/opt/web"] ++ [CallStat "/opt/web"]) = 0 /\
  untars ([CallStat "/opt/web"] ++ [CallStat "/opt/web"]) = 0.
Proof. vm_compute. repeat split. Qed.

(** With the empty target directory the check looks at the empty path while
    [Unpack] extracts into the default directory, so both of two successive
    calls extract. *)
Lemma UnpackIfNotUnpacked_default_dir_twice :
  let web := locator "app" "web" "1.0.0" in
  let store : MemStore := [("app", [envelope web []])] in
  let dir := "/var/lib/gravity/local/packages/unpacked/app/web/1.0.0" in
  let cs := [CallStat ""; CallGetStateDir; CallMkdirAll dir;
             CallReadPackage web; CallUntar dir] in
  UnpackIfNotUnpacked store web "" None [] = ([dir], cs, Ok tt) /\
  UnpackIfNotUnpacked store web "" None [dir] = ([dir; dir], cs, Ok tt).
Proof. vm_compute. repeat split. Qed.

Lemma UnpackIfNotUnpacked_twice_witness :
  let web := locator "app" "web" "1.0.0" in
  let store : MemStore := [("app", [envelope web []])] in
  let cs1 := [CallStat "/opt/web"; CallMkdirAll "/opt/web";
              CallReadPackage web; CallUntar "/opt/web"] in
  UnpackIfNotUnpacked store web "/opt/web" None ["/opt/web"] =
    (["/opt/web"], [CallStat "/opt/web"], Ok tt) /\
  reads cs1 = 1 /\ untars cs1 = 1.
Proof.
  intros web store cs1.
  assert (Hne : "/opt/web" <> "") by discriminate.
  assert (Hfirst : UnpackIfNotUnpacked store web "/opt/web" None [] =
                     (["/opt/web"], cs1, Ok tt)) by (vm_compute; reflexivity).
  exact (@UnpackIfNotUnpacked_twice MemStore Dirs memory dirs dirs_laws
           store web "/opt/web" None [] ["/opt/web"] cs1 Hne Hfirst).
Defined.

End UnpackExamples.

(** * Further properties of the resolver *)

(** ** Iteration *)
Section Iteration.
Import pack enumeration.
Context {Store : Type} `{PackageService Store}.



Lemma reposPackages_all (packages : Store) repos pss :
  Forall2 (fun repo packs => GetPackages packages repo = Ok packs) repos pss ->
  reposPackages packages repos = (concat pss, None).
Proof.
  induction 1 as [|repo packs repos pss Hrepo _ IH]; simpl; [done|].
  by rewrite Hrepo, IH.
Qed.

Lemma reposPackages_fails (packages : Store) repos pss repo rest err :
  Forall2 (fun repo packs => GetPackages packages repo = Ok packs) repos pss ->
  GetPackages packages repo = Err err ->
  reposPackages packages (repos ++ repo :: rest) = (concat pss, Some err).
Proof.
  intros Hall Hfail.
  induction Hall as [|r packs repos pss Hrepo _ IH]; simpl.
  - by rewrite Hfail.
  - by rewrite Hrepo, IH.
Qed.

(** X2.  With a callback that cannot fail, [ForeachPackage] hands over the
    packages of every repository, repositories in [GetRepositories] order
    and packages in [GetPackages] order.  When [GetPackages] fails for a
    repository, the packages of the repositories before it have been
    handed over and that error is returned. *)
Theorem ForeachPackage_order {St : Type} (packages : Store) (fn : callback St)
        (st : St) repos pss :
  total fn ->
  Forall2 (fun repo packs => GetPackages packages repo = Ok packs) repos pss ->
  (GetRepositories packages = Ok repos ->
     ForeachPackage packages fn st = (after fn (concat pss) st, None)) /\
  (forall repo rest err,
      GetRepositories packages = Ok (repos ++ repo :: rest) ->
      GetPackages packages repo = Err err ->
      ForeachPackage packages fn st = (after fn (concat pss) st, Some err)).
Proof.
  intros Hfn Hall. split.
  - intros Hrepos. rewrite ForeachPackage_total by done.
    unfold allPackages. rewrite Hrepos. by rewrite (reposPackages_all _ _ pss).
  - intros repo rest err Hrepos Hfail. rewrite ForeachPackage_total by done.
    unfold allPackages. rewrite Hrepos.
    by rewrite (reposPackages_fails _ _ pss repo rest err).
Qed.

End Iteration.

(** ** Lookups by label *)
Section Lookups.
Import pack enumeration.
Context {Store : Type} `{PackageService Store} `{loc.Consts}.

(** X3.  When the enumeration of the store fails, [FindConfigPackage] never
    returns a locator.  It reports that no configuration package was found
    when no visited envelope carries the label or the store error is itself
    a not-found for [trace.IsNotFound] (a not-found error of the trace
    package, or an error for which [os.IsNotExist] holds); it reports the
    store error only when a labelled envelope had been visited and the
    error is of another kind. *)
Theorem FindConfigPackage_store_error (packages : Store) (filter : loc.Locator) es err :
  allPackages packages = (es, Some err) ->
  let labelled := fun e =>
    HasLabel e ConfigLabel (loc.String (loc.ZeroVersion filter)) in
  (Forall (fun e => labelled e = false) es \/ IsNotFound err = true ->
     FindConfigPackage packages filter =
       Err (NotFound "no configuration package for %v found" [loc.String filter])) /\
  (Exists (fun e => labelled e = true) es -> IsNotFound err = false ->
     FindConfigPackage packages filter = Err err).
Proof.
  intros Hall labelled. unfold FindConfigPackage. fold labelled.
  rewrite FindPackage_visited, Hall. cbn [fst snd].
  destruct (last (base.filter (fun e => labelled e = true) es)) as [e|] eqn:Hlast.
  - split.
    + intros [Hnone | ->]; [|done].
      rewrite (filter_rejected labelled es Hnone) in Hlast. discriminate.
    + by intros _ ->.
  - split; [done|].
    intros Hsome. apply last_None in Hlast.
    apply Exists_exists in Hsome as (e & He & Hlab).
    assert (Hin : e ∈ base.filter (fun e => labelled e = true) es)
      by (by apply list_elem_of_filter).
    rewrite Hlast in Hin. by apply elem_of_nil in Hin.
Qed.

(** What [FindInstalledPackage] returns is the locator of what
    [FindPackage] found. *)
Lemma FindInstalledPackage_Ok (packages : Store) (filter l : loc.Locator) :
  FindInstalledPackage packages filter = Ok l ->
  exists e,
    FindPackage packages
      (fun e =>
         if bool_decide (loc.Repository (Locator e) <> loc.Repository filter)
         then false
         else if bool_decide (loc.Name (Locator e) <> loc.Name filter)
         then false
         else HasLabel e InstalledLabel InstalledLabel) = (Some e, None) /\
    Locator e = l.
Proof.
  unfold FindInstalledPackage.
  destruct (FindPackage _ _) as [[e|] [err|]]; try discriminate.
  - by destruct (IsNotFound err).
  - intros [= <-]. by exists e.
  - by destruct (IsNotFound err).
Qed.

(** X4.  A locator returned by [FindInstalledPackage] belongs to an
    enumerated envelope of the filter's repository and name that carries
    the installed label, and the enumeration of the store succeeded. *)
Theorem FindInstalledPackage_sound (packages : Store) (filter l : loc.Locator) :
  FindInstalledPackage packages filter = Ok l ->
  loc.Repository l = loc.Repository filter /\
  loc.Name l = loc.Name filter /\
  snd (allPackages packages) = None /\
  exists e, e ∈ fst (allPackages packages) /\ Locator e = l /\
            HasLabel e InstalledLabel InstalledLabel = true.
Proof.
  intros Hfound. apply FindInstalledPackage_Ok in Hfound as (e & Hfind & <-).
  pose proof Hfind as Hvisited. rewrite FindPackage_visited in Hvisited.
  apply FindPackage_Some in Hfind as [Hin Hacc].
  repeat case_bool_decide; try discriminate.
  repeat split.
  - by destruct (decide (loc.Repository (Locator e) = loc.Repository filter)).
  - by destruct (decide (loc.Name (Locator e) = loc.Name filter)).
  - destruct (last _); by injection Hvisited.
  - by exists e.
Qed.

(** X5.  The configuration locator that [FindInstalledPackageWithConfig]
    returns beside the installed locator is the one [FindConfigPackage]
    returns for the filter itself: the label value only depends on the
    repository and the name. *)
Theorem FindInstalledPackageWithConfig_Ok (packages : Store)
        (filter locator configLocator : loc.Locator) :
  FindInstalledPackageWithConfig packages filter = Ok (locator, configLocator) ->
  FindInstalledPackage packages filter = Ok locator /\
  FindConfigPackage packages filter = Ok configLocator.
Proof.
  unfold FindInstalledPackageWithConfig.
  destruct (FindInstalledPackage packages filter) as [l|] eqn:Hinst; [|discriminate].
  destruct (FindConfigPackage packages l) as [c|] eqn:Hconf; [|discriminate].
  intros [= <- <-]. split; [done|].
  apply FindInstalledPackage_Ok in Hinst as (pkg & Hpkg & <-).
  apply FindPackage_Some in Hpkg as [_ Hacc].
  assert (Hrepo : loc.Repository (Locator pkg) = loc.Repository filter).
  { case_bool_decide; [discriminate|].
    by destruct (decide (loc.Repository (Locator pkg) = loc.Repository filter)). }
  assert (Hname : loc.Name (Locator pkg) = loc.Name filter).
  { repeat case_bool_decide; try discriminate.
    by destruct (decide (loc.Name (Locator pkg) = loc.Name filter)). }
  apply FindConfigPackage_Ok in Hconf as (e & Hfind & <-).
  assert (Hzero : loc.ZeroVersion (Locator pkg) = loc.ZeroVersion filter)
    by (unfold loc.ZeroVersion; by rewrite Hrepo, Hname).
  rewrite Hzero in Hfind.
  unfold FindConfigPackage. by rewrite Hfind.
Qed.

End Lookups.

(** ** The latest package, in general *)
Section LatestGeneral.
Import pack enumeration.
Context {Store : Type} `{PackageService Store} `{semver.Lib}.

(** Once set, [max] stays set. *)
Lemma after_predicate_is_Some (filter : PackageEnvelope -> bool) es m :
  is_Some (after (FindLatestPackagePredicate_predicate filter) es (Some m)).
Proof.
  unfold after. revert m. induction es as [|e es IH]; intros m; simpl; [by eexists|].
  unfold FindLatestPackagePredicate_predicate at 2.
  destruct (filter e); simpl; [|apply IH].
  destruct (loc.SemVer m); [|apply IH].
  destruct (loc.SemVer (Locator e)); [|apply IH].
  destruct (_ >? _)%Z; apply IH.
Qed.

(** [max] is always the locator of an accepted envelope seen so far. *)
Lemma after_predicate_from (filter : PackageEnvelope -> bool) es max l :
  after (FindLatestPackagePredicate_predicate filter) es max = Some l ->
  max = Some l \/ exists e, e ∈ es /\ filter e = true /\ Locator e = l.
Proof.
  unfold after. revert max. induction es as [|e es IH]; intros max; simpl; [by left|].
  intros Hafter. apply IH in Hafter as [Hstep | (e' & He' & Hacc & Hloc)].
  - unfold FindLatestPackagePredicate_predicate in Hstep.
    destruct (filter e) eqn:He; simpl in Hstep; [|by left].
    assert (Hhere : exists e', e' ∈ e :: es /\ filter e' = true /\ Locator e' = Locator e)
      by (exists e; split; [apply list_elem_of_here|done]).
    destruct max as [m|]; [|injection Hstep as <-; by right].
    destruct (loc.SemVer m); [|by left].
    destruct (loc.SemVer (Locator e)); [|by left].
    destruct (_ >? _)%Z; [injection Hstep as <-; by right|by left].
  - right. exists e'. split; [by apply list_elem_of_further|done].
Qed.

(** [max] stays nil only when every envelope is rejected. *)
Lemma after_predicate_None (filter : PackageEnvelope -> bool) es :
  after (FindLatestPackagePredicate_predicate filter) es None = None ->
  Forall (fun e => filter e = false) es.
Proof.
  intros Hafter. apply Forall_forall. intros e He.
  destruct (filter e) eqn:Hacc; [|done]. exfalso.
  apply list_elem_of_split in He as (pre & post & ->).
  rewrite after_app in Hafter.
  assert (Hstep : is_Some (after (FindLatestPackagePredicate_predicate filter) [e]
                             (after (FindLatestPackagePredicate_predicate filter) pre None))).
  { unfold after at 1. simpl. unfold FindLatestPackagePredicate_predicate at 1.
    rewrite Hacc. simpl.
    destruct (after _ pre None) as [m|]; [|by eexists].
    destruct (loc.SemVer m); [|by eexists].
    destruct (loc.SemVer (Locator e)); [|by eexists].
    destruct (_ >? _)%Z; by eexists. }
  change (e :: post) with ([e] ++ post) in Hafter. rewrite after_app in Hafter.
  destruct Hstep as [m Hm]. rewrite Hm in Hafter.
  destruct (after_predicate_is_Some filter post m) as [l Hl]. congruence.
Qed.

(** X7.  When the enumeration succeeds, [FindLatestPackagePredicate] returns
    not-found exactly when the filter accepts none of the visited
    envelopes, and otherwise the locator of a visited envelope that the
    filter accepts. *)
Theorem FindLatestPackagePredicate_found (packages : Store) (repository : string)
        (filter : PackageEnvelope -> bool) es :
  scanned packages repository = (es, None) ->
  (Forall (fun e => filter e = false) es /\
   FindLatestPackagePredicate packages repository filter =
     Err (NotFound "latest package not found" [])) \/
  (exists e, e ∈ es /\ filter e = true /\
             FindLatestPackagePredicate packages repository filter = Ok (Locator e)).
Proof.
  intros Hscan. rewrite FindLatestPackagePredicate_scanned, Hscan. cbn [fst snd].
  destruct (after _ es None) as [l|] eqn:Hafter.
  - right. apply after_predicate_from in Hafter as [|(e & He & Hacc & <-)]; [done|].
    by exists e.
  - left. split; [|done]. by apply after_predicate_None.
Qed.

(** The version of [max] bounds the versions of the accepted envelopes
    seen, when all of them parse. *)
Lemma after_predicate_bound `{!semver.Laws} `{!semver.Total}
      (filter : PackageEnvelope -> bool) es max :
  Forall (fun e => filter e = true -> exists v, loc.SemVer (Locator e) = Ok v) es ->
  (forall m, max = Some m -> exists c, loc.SemVer m = Ok c) ->
  forall l, after (FindLatestPackagePredicate_predicate filter) es max = Some l ->
  exists c, loc.SemVer l = Ok c /\
    (forall m c0, max = Some m -> loc.SemVer m = Ok c0 -> (semver.Compare c0 c <= 0)%Z) /\
    Forall (fun e => filter e = true ->
                     forall v, loc.SemVer (Locator e) = Ok v ->
                               (semver.Compare v c <= 0)%Z) es.
Proof.
  assert (Hrefl : forall v : semver.Version, (semver.Compare v v <= 0)%Z).
  { intros v. destruct (Z_lt_le_dec 0 (semver.Compare v v)) as [Hpos|]; [|done].
    pose proof (proj2 (semver.Compare_flip v v) Hpos). lia. }
  intros Hparse. unfold after. revert max.
  induction Hparse as [|e es He _ IH]; intros max Hmax l; simpl.
  - intros ->. destruct (Hmax l eq_refl) as (c & Hc). exists c.
    split; [done|]. split; [|constructor].
    intros m c0 [= <-] Hc0. rewrite Hc in Hc0. injection Hc0 as <-. apply Hrefl.
  - intros Hafter.
    unfold FindLatestPackagePredicate_predicate in Hafter at 2.
    destruct (filter e) eqn:Hacc; simpl in Hafter.
    + destruct (He eq_refl) as (v & Hv). rewrite Hv in Hafter.
      destruct max as [m|].
      * destruct (Hmax m eq_refl) as (c0 & Hc0). rewrite Hc0 in Hafter.
        destruct (Z.gtb_spec (semver.Compare v c0) 0) as [Hgt|Hle].
        -- destruct (IH (Some (Locator e))
                        ltac:(intros ? [= <-]; by exists v) l Hafter)
             as (c & Hc & Hbound & Hall).
           specialize (Hbound _ _ eq_refl Hv).
           exists c. split; [done|]. split.
           ++ intros m' c0' [= <-] Hc0'. rewrite Hc0 in Hc0'. injection Hc0' as <-.
              destruct (Z_lt_le_dec 0 (semver.Compare c0 c)) as [Hpos|]; [|done].
              apply semver.Compare_flip in Hpos.
              assert (Hlt : (semver.Compare c0 v < 0)%Z)
                by (apply semver.Compare_flip; lia).
              pose proof (semver.Compare_trans c c0 v Hpos Hlt) as Hcv.
              apply semver.Compare_flip in Hcv. lia.
           ++ constructor; [|done]. intros _ v' Hv'. rewrite Hv in Hv'.
              by injection Hv' as <-.
        -- destruct (IH (Some m) Hmax l Hafter) as (c & Hc & Hbound & Hall).
           specialize (Hbound _ _ eq_refl Hc0).
           exists c. split; [done|]. split.
           ++ intros m' c0' [= <-] Hc0'. rewrite Hc0 in Hc0'. by injection Hc0' as <-.
           ++ constructor; [|done]. intros _ v' Hv'. rewrite Hv in Hv'.
              injection Hv' as <-.
              destruct (Z_lt_le_dec 0 (semver.Compare v c)) as [Hpos|]; [|done].
              apply semver.Compare_flip in Hpos.
              destruct (semver.Compare_between c c0 v Hpos) as [Hlt|Hlt].
              ** apply semver.Compare_flip in Hlt. lia.
              ** apply semver.Compare_flip in Hlt. lia.
      * destruct (IH (Some (Locator e))
                     ltac:(intros ? [= <-]; by exists v) l Hafter)
          as (c & Hc & Hbound & Hall).
        specialize (Hbound _ _ eq_refl Hv).
        exists c. split; [done|]. split; [by intros ? ? [=]|].
        constructor; [|done]. intros _ v' Hv'. rewrite Hv in Hv'.
        by injection Hv' as <-.
    + destruct (IH max Hmax l Hafter) as (c & Hc & Hbound & Hall).
      exists c. split; [done|]. split; [done|].
      constructor; [|done]. intros Hacc'. congruence.
Qed.

(** X8.  When the enumeration succeeds and every accepted envelope has a
    valid version, the locator returned by [FindLatestPackagePredicate] has
    a valid version that no accepted envelope exceeds. *)
Theorem FindLatestPackagePredicate_maximal `{!semver.Laws} `{!semver.Total}
        (packages : Store) (repository : string)
        (filter : PackageEnvelope -> bool) es l :
  scanned packages repository = (es, None) ->
  Forall (fun e => filter e = true -> exists v, loc.SemVer (Locator e) = Ok v) es ->
  FindLatestPackagePredicate packages repository filter = Ok l ->
  exists c, loc.SemVer l = Ok c /\
    forall e v, e ∈ es -> filter e = true -> loc.SemVer (Locator e) = Ok v ->
                (semver.Compare v c <= 0)%Z.
Proof.
  intros Hscan Hparse. rewrite FindLatestPackagePredicate_scanned, Hscan. cbn [fst snd].
  destruct (after _ es None) as [l'|] eqn:Hafter; [|discriminate].
  intros [= <-].
  destruct (after_predicate_bound filter es None Hparse ltac:(discriminate) l' Hafter)
    as (c & Hc & _ & Hall).
  exists c. split; [done|]. intros e v He Hacc Hv.
  by apply (proj1 (Forall_forall _ _) Hall e He Hacc v).
Qed.

(** X9.  The first accepted envelope wins unless a later accepted one is
    strictly greater: when its version is valid and no later accepted
    envelope with a parsable version has a greater version, its locator is
    returned.  Later accepted envelopes of equal version or with unparsable
    versions do not replace it, and rejected envelopes never count. *)
Theorem FindLatestPackagePredicate_first_wins (packages : Store) (repository : string)
        (filter : PackageEnvelope -> bool) pre e post c :
  scanned packages repository = (pre ++ e :: post, None) ->
  Forall (fun x => filter x = false) pre ->
  filter e = true ->
  loc.SemVer (Locator e) = Ok c ->
  Forall (fun x => filter x = true ->
                   forall v, loc.SemVer (Locator x) = Ok v ->
                             (semver.Compare v c <= 0)%Z) post ->
  FindLatestPackagePredicate packages repository filter = Ok (Locator e).
Proof.
  intros Hscan Hpre He Hc Hpost.
  rewrite FindLatestPackagePredicate_scanned, Hscan. cbn [fst snd].
  rewrite after_app.
  replace (after (FindLatestPackagePredicate_predicate filter) pre None) with (@None loc.Locator).
  - change (e :: post) with ([e] ++ post). rewrite after_app.
    replace (after (FindLatestPackagePredicate_predicate filter) [e] None)
      with (Some (Locator e)).
    + rewrite after_predicate_filter.
      rewrite (after_predicate_stays filter _ _ c); [done..|].
      apply Forall_forall. intros x Hx. apply list_elem_of_filter in Hx as [Hacc Hin].
      by apply (proj1 (Forall_forall _ _) Hpost x Hin Hacc).
    + unfold after, FindLatestPackagePredicate_predicate. simpl. by rewrite He.
  - rewrite after_predicate_filter, (filter_rejected filter pre Hpre). done.
Qed.

End LatestGeneral.

(** ** Lines, updates and newer packages *)
Section Lines.
Import pack enumeration.
Context {Store : Type} `{PackageService Store} `{semver.Lib}.

(** A locator returned by [FindLatestPackagePredicate] is accepted by the
    filter. *)
Lemma FindLatestPackagePredicate_accepted (packages : Store) (repository : string)
      (filter : PackageEnvelope -> bool) l :
  FindLatestPackagePredicate packages repository filter = Ok l ->
  snd (scanned packages repository) = None /\
  exists e, e ∈ fst (scanned packages repository) /\ filter e = true /\ Locator e = l.
Proof.
  rewrite FindLatestPackagePredicate_scanned.
  destruct (snd (scanned packages repository)); [discriminate|].
  destruct (after _ _ None) as [l'|] eqn:Hafter; [|discriminate].
  intros [= <-]. split; [done|].
  by apply after_predicate_from in Hafter as [|Hfrom].
Qed.

Lemma FindLatestPackage_Ok (packages : Store) (filter l : loc.Locator) :
  FindLatestPackage packages filter = Ok l ->
  FindLatestPackagePredicate packages (loc.Repository filter)
    (fun e => bool_decide (loc.Repository (Locator e) = loc.Repository filter)
              && bool_decide (loc.Name (Locator e) = loc.Name filter)) = Ok l.
Proof.
  unfold FindLatestPackage.
  destruct (FindLatestPackagePredicate _ _ _) as [l'|err]; [done|].
  by destruct (IsNotFound err).
Qed.

(** X10.  The locator returned by [FindLatestPackage] has the repository and
    the name of the filter, and the one returned by
    [FindLatestPackageByName] has the given name. *)
Theorem FindLatestPackage_line (packages : Store) (filter l : loc.Locator) (name : string) :
  (FindLatestPackage packages filter = Ok l ->
     loc.Repository l = loc.Repository filter /\ loc.Name l = loc.Name filter) /\
  (FindLatestPackageByName packages name = Ok l -> loc.Name l = name).
Proof.
  split.
  - intros Hlatest. apply FindLatestPackage_Ok in Hlatest.
    apply FindLatestPackagePredicate_accepted in Hlatest as (_ & e & _ & Hacc & <-).
    apply andb_true_iff in Hacc as [Hrepo Hname].
    by apply bool_decide_eq_true in Hrepo, Hname.
  - unfold FindLatestPackageByName.
    destruct (FindLatestPackagePredicate _ _ _) as [l'|err] eqn:Hlatest;
      [|by destruct (IsNotFound err)].
    intros [= ->].
    apply FindLatestPackagePredicate_accepted in Hlatest as (_ & e & _ & Hacc & <-).
    by apply bool_decide_eq_true in Hacc.
Qed.

(** X11.  An empty repository in the filter does not widen
    [FindLatestPackage] to the line in any repository: all repositories are
    scanned, but only envelopes whose own repository is empty are accepted,
    so a store without such envelopes gives not-found. *)
Theorem FindLatestPackage_empty_repository (packages : Store) (filter : loc.Locator) es :
  loc.Repository filter = "" ->
  allPackages packages = (es, None) ->
  Forall (fun e => loc.Repository (Locator e) <> "") es ->
  FindLatestPackage packages filter =
    Err (NotFound "latest package with filter %v not found" [loc.String filter]).
Proof.
  intros Hrepo Hall Hnone. unfold FindLatestPackage.
  rewrite FindLatestPackagePredicate_scanned. unfold scanned.
  rewrite Hrepo, bool_decide_false by (intros Hne; by apply Hne).
  rewrite Hall. cbn [fst snd].
  rewrite after_predicate_filter, filter_rejected; [done|].
  eapply Forall_impl; [exact Hnone|]. simpl. intros e He.
  by rewrite (bool_decide_false (_ = "")).
Qed.

Lemma FindPackageUpdate_Ok (packages : Store) (pkg : loc.Locator) u :
  FindPackageUpdate packages pkg = Ok u ->
  exists latestPackage currentVersion latestVersion,
    FindLatestPackage packages pkg = Ok latestPackage /\
    loc.SemVer pkg = Ok currentVersion /\
    loc.SemVer latestPackage = Ok latestVersion /\
    (0 < semver.Compare latestVersion currentVersion)%Z /\
    u = {| storage.From := pkg; storage.To := latestPackage |}.
Proof.
  unfold FindPackageUpdate.
  destruct (FindLatestPackage packages pkg) as [latest|] eqn:Hlatest; [|discriminate].
  destruct (loc.SemVer pkg) as [cv|] eqn:Hcv; [|discriminate].
  destruct (loc.SemVer latest) as [lv|] eqn:Hlv; [|discriminate].
  destruct (Z.gtb_spec (semver.Compare lv cv) 0); [|discriminate].
  intros [= <-]. exists latest, cv, lv. repeat split; (done || lia).
Qed.

(** X12.  An update found by [FindPackageUpdate] starts at the given
    package, stays in its repository and name, and passes
    [CheckUpdatePackage]. *)
Theorem FindPackageUpdate_checks `{!semver.Laws} (packages : Store) (pkg : loc.Locator) u :
  FindPackageUpdate packages pkg = Ok u ->
  storage.From u = pkg /\
  loc.Repository (storage.To u) = loc.Repository pkg /\
  loc.Name (storage.To u) = loc.Name pkg /\
  CheckUpdatePackage (storage.From u) (storage.To u) = None.
Proof.
  intros Hupdate.
  apply FindPackageUpdate_Ok in Hupdate as (latest & cv & lv & Hlatest & Hcv & Hlv & Hgt & ->).
  apply FindLatestPackage_Ok in Hlatest.
  apply FindLatestPackagePredicate_accepted in Hlatest as (_ & e & _ & Hacc & <-).
  apply andb_true_iff in Hacc as [Hrepo Hname].
  apply bool_decide_eq_true in Hrepo, Hname. simpl.
  repeat split; [done..|].
  unfold CheckUpdatePackage, semver.LessThan.
  rewrite !bool_decide_false by (intros Hne; by apply Hne). simpl.
  rewrite Hcv, Hlv.
  apply semver.Compare_flip in Hgt.
  by destruct (Z.ltb_spec (semver.Compare cv lv) 0); [|lia].
Qed.

(** X13.  When the enumeration succeeds and the package and every envelope
    of its line have valid versions, [FindPackageUpdate] finds an update
    exactly when some envelope of the line has a version strictly above
    that of the package; otherwise it returns not-found. *)
Theorem FindPackageUpdate_iff_newer `{!semver.Laws} `{!semver.Total}
        (packages : Store) (pkg : loc.Locator) es currentVersion :
  let line := fun e =>
    bool_decide (loc.Repository (Locator e) = loc.Repository pkg)
    && bool_decide (loc.Name (Locator e) = loc.Name pkg) in
  scanned packages (loc.Repository pkg) = (es, None) ->
  loc.SemVer pkg = Ok currentVersion ->
  Forall (fun e => line e = true -> exists v, loc.SemVer (Locator e) = Ok v) es ->
  ((exists u, FindPackageUpdate packages pkg = Ok u) <->
   (exists e v, e ∈ es /\ line e = true /\ loc.SemVer (Locator e) = Ok v /\
                (0 < semver.Compare v currentVersion)%Z)) /\
  ((exists u, FindPackageUpdate packages pkg = Ok u) \/
   exists format args, FindPackageUpdate packages pkg = Err (NotFound format args)).
Proof.
  intros line Hscan Hcv Hparse.
  assert (Hcases :
    (FindLatestPackage packages pkg =
       Err (NotFound "latest package with filter %v not found" [loc.String pkg]) /\
     Forall (fun e => line e = false) es) \/
    (exists l c, FindLatestPackage packages pkg = Ok l /\ loc.SemVer l = Ok c /\
                 (exists e, e ∈ es /\ line e = true /\ Locator e = l) /\
                 forall e v, e ∈ es -> line e = true -> loc.SemVer (Locator e) = Ok v ->
                             (semver.Compare v c <= 0)%Z)).
  { unfold FindLatestPackage. fold line.
    rewrite FindLatestPackagePredicate_scanned, Hscan. cbn [fst snd].
    destruct (after _ es None) as [l|] eqn:Hafter.
    - right.
      destruct (after_predicate_bound line es None Hparse ltac:(discriminate) l Hafter)
        as (c & Hc & _ & Hall).
      apply after_predicate_from in Hafter as [|Hfrom]; [done|].
      exists l, c. repeat split; [done..|].
      intros e v He Hacc Hv. by apply (proj1 (Forall_forall _ _) Hall e He Hacc v).
    - left. split; [done|]. by apply after_predicate_None. }
  unfold FindPackageUpdate. rewrite Hcv.
  destruct Hcases as [[-> Hnone]|(l & c & -> & Hc & (e & He & Hacc & Hloc) & Hmax)].
  - split; [|right; eauto]. split; [by intros [u Hu]|].
    intros (e & v & He & Hacc & _). exfalso.
    pose proof (proj1 (Forall_forall _ _) Hnone e He). congruence.
  - rewrite Hc.
    destruct (Z.gtb_spec (semver.Compare c currentVersion) 0) as [Hgt|Hle].
    + split; [|left; eauto]. split; [|eauto].
      intros _. exists e, c. subst l. repeat split; (done || lia).
    + split; [|right; eauto]. split; [by intros [u Hu]|].
      intros (e' & v & He' & Hacc' & Hv & Hgt). exfalso.
      specialize (Hmax e' v He' Hacc' Hv).
      apply semver.Compare_flip in Hgt.
      destruct (semver.Compare_between currentVersion c v Hgt) as [Hlt|Hlt];
        apply semver.Compare_flip in Hlt; lia.
Qed.

End Lines.

Section NewerGeneral.
Import pack enumeration.
Context {Store : Type} `{PackageService Store} `{semver.Lib}.

(** The scan of [FindNewerPackages] over envelopes whose versions parse
    wherever the name is the filter's. *)
Lemma FindNewerPackages_range_all (filter : loc.Locator) vera packs result :
  loc.SemVer filter = Ok vera ->
  Forall (fun e => loc.Name (Locator e) = loc.Name filter ->
                   exists v, loc.SemVer (Locator e) = Ok v) packs ->
  ForeachPackageInRepo_range (FindNewerPackages_fn filter) packs result =
    (result ++ map Locator (List.filter (newerThan filter vera) packs), None).
Proof.
  intros Hvera Hparse. revert result.
  induction Hparse as [|e packs He _ IH]; intros result; simpl.
  - by rewrite app_nil_r.
  - unfold FindNewerPackages_fn at 1. unfold newerThan at 1. rewrite Hvera.
    destruct (decide (loc.Name (Locator e) = loc.Name filter)) as [Hname|Hname].
    + rewrite bool_decide_false by (intros Hne; by apply Hne).
      rewrite bool_decide_true by done.
      destruct (He Hname) as (v & ->). simpl.
      destruct (_ >? _)%Z; simpl; rewrite IH; [|done].
      by rewrite <- app_assoc.
    + rewrite bool_decide_true by done. rewrite bool_decide_false by done. simpl.
      apply IH.
Qed.

(** X14.  When the filter's version and the versions of all envelopes with
    the filter's name are valid, [FindNewerPackages] returns, in
    [GetPackages] order, the locators of exactly the envelopes of the
    filter's repository that have the filter's name and a strictly greater
    version. *)
Theorem FindNewerPackages_all (packages : Store) (filter : loc.Locator) packs vera :
  GetPackages packages (loc.Repository filter) = Ok packs ->
  loc.SemVer filter = Ok vera ->
  Forall (fun e => loc.Name (Locator e) = loc.Name filter ->
                   exists v, loc.SemVer (Locator e) = Ok v) packs ->
  FindNewerPackages packages filter =
    Ok (map Locator (List.filter (newerThan filter vera) packs)).
Proof.
  intros Hpacks Hvera Hparse.
  unfold FindNewerPackages, ForeachPackageInRepo. rewrite Hpacks.
  by rewrite (FindNewerPackages_range_all filter vera).
Qed.

Lemma FindNewerPackages_range_no_name (filter : loc.Locator) packs result :
  Forall (fun e => loc.Name (Locator e) <> loc.Name filter) packs ->
  ForeachPackageInRepo_range (FindNewerPackages_fn filter) packs result = (result, None).
Proof.
  induction 1 as [|e packs He _ IH]; simpl; [done|].
  by rewrite FindNewerPackages_other_name.
Qed.

(** X15.  The filter's version is only parsed when an envelope with the
    filter's name is met: in a repository without such an envelope
    [FindNewerPackages] returns the empty list, whatever the filter's
    version string is. *)
Theorem FindNewerPackages_no_name (packages : Store) (filter : loc.Locator) packs :
  GetPackages packages (loc.Repository filter) = Ok packs ->
  Forall (fun e => loc.Name (Locator e) <> loc.Name filter) packs ->
  FindNewerPackages packages filter = Ok [].
Proof.
  intros Hpacks Hnames.
  unfold FindNewerPackages, ForeachPackageInRepo. rewrite Hpacks.
  by rewrite FindNewerPackages_range_no_name.
Qed.

(** X16.  For a package with a non-empty repository whose line has only
    valid versions, the target of the update found by [FindPackageUpdate]
    is one of the locators that [FindNewerPackages] returns. *)
Theorem FindPackageUpdate_in_newer (packages : Store) (pkg : loc.Locator) packs u :
  loc.Repository pkg <> "" ->
  GetPackages packages (loc.Repository pkg) = Ok packs ->
  Forall (fun e => loc.Name (Locator e) = loc.Name pkg ->
                   exists v, loc.SemVer (Locator e) = Ok v) packs ->
  FindPackageUpdate packages pkg = Ok u ->
  exists newer, FindNewerPackages packages pkg = Ok newer /\ storage.To u ∈ newer.
Proof.
  intros Hrepo Hpacks Hparse Hupdate.
  apply FindPackageUpdate_Ok in Hupdate as (latest & cv & lv & Hlatest & Hcv & Hlv & Hgt & ->).
  apply FindLatestPackage_Ok in Hlatest.
  apply FindLatestPackagePredicate_accepted in Hlatest as (_ & e & He & Hacc & <-).
  unfold scanned, repoPackages in He.
  rewrite bool_decide_true, Hpacks in He by done. simpl in He.
  apply andb_true_iff in Hacc as [_ Hname]. apply bool_decide_eq_true in Hname.
  exists (map Locator (List.filter (newerThan pkg cv) packs)).
  split.
  { unfold FindNewerPackages, ForeachPackageInRepo. rewrite Hpacks.
    by rewrite (FindNewerPackages_range_all pkg cv). }
  simpl.
  apply list_elem_of_fmap. exists e. split; [done|].
  apply list_elem_of_In, filter_In. split; [by apply list_elem_of_In|].
  unfold newerThan. rewrite bool_decide_true, Hlv by done. simpl.
  by destruct (Z.gtb_spec (semver.Compare lv cv) 0); [|lia].
Qed.

(** X17.  [ProcessMetadata] keeps the line: the locator it returns has the
    repository and the name of the given one, whether it is the given
    locator or the latest package resolved for the [latest] metadata. *)
Theorem ProcessMetadata_line `{!semver.WithMetadata} (packages : Store)
        (loc l : loc.Locator) :
  ProcessMetadata packages loc = Ok l ->
  loc.Repository l = loc.Repository loc /\ loc.Name l = loc.Name loc.
Proof.
  unfold ProcessMetadata.
  destruct (loc.SemVer loc) as [ver|]; [|discriminate].
  case_bool_decide.
  - intros Hlatest. apply FindLatestPackage_Ok in Hlatest.
    apply FindLatestPackagePredicate_accepted in Hlatest as (_ & e & _ & Hacc & <-).
    apply andb_true_iff in Hacc as [Hrepo Hname].
    by apply bool_decide_eq_true in Hrepo, Hname.
  - by intros [= <-].
Qed.

End NewerGeneral.

(** ** Manifests and configuration labels *)
Section ManifestsAndLabels.
Import pack enumeration.
Context {Store : Type} `{PackageService Store} `{Archive} `{loc.Consts}.

(** X18.  [GetConfigPackage] succeeds only on a package whose manifest
    [GetPackageManifest] can read and which declares configuration; an error
    of [GetPackageManifest] is the error of [GetConfigPackage]. *)
Theorem GetConfigPackage_manifest (p : Store) (loc confLoc : loc.Locator)
        (args : list string) :
  (forall reader,
      GetConfigPackage p loc confLoc args = Ok reader ->
      exists manifest parsed,
        GetPackageManifest p loc = Ok manifest /\
        ConfigIsNil manifest = false /\
        ParseArgs manifest args = Ok parsed /\
        WriteConfigPackage parsed = Ok reader) /\
  (forall err,
      GetPackageManifest p loc = Err err ->
      GetConfigPackage p loc confLoc args = Err err).
Proof.
  unfold GetConfigPackage, GetPackageManifest.
  destruct (ReadPackage p loc) as [[env reader]|err]; [|split; [discriminate|by intros ? [= <-]]].
  destruct (DecompressStream reader) as [decompressed|err]; [|split; [discriminate|by intros ? [= <-]]].
  destruct (ReadManifest decompressed) as [manifest|err]; [|split; [discriminate|by intros ? [= <-]]].
  split; [|discriminate].
  intros buf. destruct (ConfigIsNil manifest) eqn:Hnil; [discriminate|].
  destruct (ParseArgs manifest args) as [parsed|] eqn:Hparsed; [|discriminate].
  destruct (WriteConfigPackage parsed) as [buf'|] eqn:Hwrite; [|discriminate].
  intros [= <-]. by exists manifest, parsed.
Qed.

(** X6.  The labels of [ConfigLabels] already hold the config entry of the
    locator: passing them to [ConfigurePackage] as caller labels gives
    exactly these labels to the created package, and an envelope that
    carries them is one that [FindConfigPackage] accepts for the locator. *)
Theorem ConfigLabels_owned (loc : loc.Locator) (purpose : string) :
  ConfigurePackage_allLabels loc (ConfigLabels loc purpose) = ConfigLabels loc purpose /\
  forall e, RuntimeLabels e = ConfigLabels loc purpose ->
            HasLabel e ConfigLabel (loc.String (loc.ZeroVersion loc)) = true /\
            HasLabel e PurposeLabel purpose = true.
Proof.
  assert (Hconfig : ConfigLabels loc purpose !! ConfigLabel =
                      Some (loc.String (loc.ZeroVersion loc)))
    by (unfold ConfigLabels; apply lookup_insert_eq).
  assert (Hpurpose : ConfigLabels loc purpose !! PurposeLabel = Some purpose).
  { unfold ConfigLabels. rewrite lookup_insert_ne by discriminate.
    apply lookup_singleton_eq. }
  split.
  - apply map_eq. intros k. rewrite ConfigurePackage_allLabels_lookup.
    destruct (ConfigLabels loc purpose !! k) eqn:Hk; [done|].
    destruct (decide (k = ConfigLabel)) as [->|Hne]; [congruence|].
    by rewrite lookup_singleton_ne.
  - intros e He. unfold HasLabel. rewrite He. by rewrite !bool_decide_true.
Qed.

End ManifestsAndLabels.

(** ** Unpacking after a failure, and into the default directory *)
Section UnpackGeneral.
Import pack enumeration.
Context {Store World : Type} `{PackageService Store} `{OS World} `{!OSLaws}.

(** X19.  [Unpack] creates the target directory before it reads the
    package.  So when a first [UnpackIfNotUnpacked] fails after that point
    (the package cannot be read, or untarring fails), the directory is left
    behind and a second call finds it, extracts nothing and returns
    success. *)
Theorem UnpackIfNotUnpacked_after_failure (p : Store) (loc : loc.Locator)
        (targetDir : string) (opts : option TarOptions)
        (w0 w1 : World) (cs1 : list call) (err : error) :
  targetDir <> "" ->
  UnpackIfNotUnpacked p loc targetDir opts w0 = (w1, cs1, Err err) ->
  CallReadPackage loc ∈ cs1 ->
  UnpackIfNotUnpacked p loc targetDir opts w1 = (w1, [CallStat targetDir], Ok tt).
Proof.
  intros Hne. unfold UnpackIfNotUnpacked at 1. unfold bind, IsUnpacked.
  destruct (Stat w0 targetDir) as [info|err0] eqn:Hstat.
  - destruct (IsDir info); simpl.
    + discriminate.
    + intros [= <- <- _] Hin. apply list_elem_of_singleton in Hin. discriminate.
  - destruct (IsNotExist err0).
    2:{ intros [= <- <- _] Hin. apply list_elem_of_singleton in Hin. discriminate. }
    unfold Unpack, bind. rewrite bool_decide_false by done.
    unfold ret, mkdirAll, readPackage, untar.
    destruct (MkdirAll w0 targetDir SharedDirMask) as [wa [errm|]] eqn:Hmk.
    { intros [= <- <- _] Hin. exfalso.
      repeat (apply elem_of_cons in Hin as [Hin|Hin]; [discriminate|]).
      by apply elem_of_nil in Hin. }
    apply MkdirAll_dir in Hmk as (info & Hinfo & Hdir).
    destruct (ReadPackage p loc) as [[env reader]|errr].
    + destruct (Untar wa reader targetDir _) as [wb [erru|]] eqn:Hun; [|discriminate].
      intros [= <- <- _] _.
      destruct (Untar_dir _ _ _ _ _ _ _ Hun Hinfo Hdir) as (info' & Hinfo' & Hdir').
      by apply (UnpackIfNotUnpacked_unpacked p loc targetDir opts wb info').
    + intros [= <- <- _] _.
      by apply (UnpackIfNotUnpacked_unpacked p loc targetDir opts wa info).
Qed.


End UnpackGeneral.

(** ** Dispatch, further *)
Section DispatchGeneral.
Import update.
Context `{Env}.

Ltac cases name :=
  repeat match goal with
         | |- context [bool_decide (name = ?c)] =>
             destruct (decide (name = c));
             [rewrite (bool_decide_true (name = c)) by done
             |rewrite (bool_decide_false (name = c)) by done]
         end.

(** X21.  [fsmSpec] returns an executor only for a named phase of an update
    plan whose executor name is in the vocabulary, and the executor is the
    one its constructor returned. *)
Theorem fsmSpec_Ok (c : FSMConfig) (p : ExecutorParams) (remote : fsmRemote)
        (executor : PhaseExecutor) :
  fsmSpec c p remote = Ok executor ->
  Executor (Phase p) <> "" /\
  OperationType (Plan p) = OperationUpdate /\
  Executor (Phase p) ∈ vocabulary /\
  (Executor (Phase p), Ok executor) ∈ constructors c p remote.
Proof.
  unfold fsmSpec.
  case_bool_decide as Hname; [discriminate|].
  case_bool_decide as Hop; [discriminate|].
  cbv zeta.
  generalize dependent (Executor (Phase p)). intros name Hname.
  unfold vocabulary, constructors.
  cases name; try discriminate; subst name; intros <-;
    (repeat split; [done | done | |]);
    repeat first [apply list_elem_of_here | apply list_elem_of_further].
Qed.

(** X22.  The remote handle given to the dispatcher only reaches the
    constructors of the bootstrap, system, election, configuration and
    cleanup phases: for every other executor name the result does not
    depend on it (the checks phase uses the remote of the configuration). *)
Theorem fsmSpec_remote (c : FSMConfig) (p : ExecutorParams) (remote remote' : fsmRemote) :
  Executor (Phase p) ∉
    [updateBootstrap; updateSystem; electionStatus; config; cleanupNode] ->
  fsmSpec c p remote = fsmSpec c p remote'.
Proof.
  intros Hout. rewrite !not_elem_of_cons in Hout.
  destruct Hout as (H1 & H2 & H3 & H4 & H5 & _).
  unfold fsmSpec. cbv zeta.
  rewrite !(bool_decide_false (_ = updateBootstrap)),
          !(bool_decide_false (_ = updateSystem)),
          !(bool_decide_false (_ = electionStatus)),
          !(bool_decide_false (_ = config)),
          !(bool_decide_false (_ = cleanupNode)) by done.
  reflexivity.
Qed.

End DispatchGeneral.

(** ** The reference semantic versions are totally ordered *)
Lemma numeric_total : @semver.Total reference.numeric.
Proof.
  split. intros [a1 a2 a3] [b1 b2 b3] [c1 c2 c3]. cbn. unfold reference.Compare. cbn.
  repeat match goal with
         | |- context [(?x >? ?y)%Z] => destruct (Z.gtb_spec x y)
         | |- context [(?x <? ?y)%Z] => destruct (Z.ltb_spec x y)
         end; lia.
Qed.

Section IterationExamples.
Import pack enumeration reference.


Lemma ForeachPackage_order_witness :
  let e1 := envelope (locator "app" "web" "1.0.0") [] in
  let e2 := envelope (locator "app" "web" "2.0.0") [] in
  let e3 := envelope (locator "db" "sql" "1.0.0") [] in
  let store : MemStore := [("app", [e1; e2]); ("db", [e3])] in
  let fn : callback (list string) := fun e seen =>
    (seen ++ [loc.Version (Locator e)], None) in
  ForeachPackage (H := memory) store fn [] = (["1.0.0"; "2.0.0"; "1.0.0"], None) /\
  ForeachPackage (H := flaky) (store, ["db"]) fn [] =
    (["1.0.0"; "2.0.0"], Some (External "i/o error")).
Proof.
  intros e1 e2 e3 store fn.
  assert (Htotal : total fn) by (intros e st; reflexivity).
  split.
  - apply (proj1 (@ForeachPackage_order MemStore memory (list string)
                    store fn [] ["app"; "db"] [[e1; e2]; [e3]] Htotal
                    ltac:(repeat constructor))).
    reflexivity.
  - apply (proj2 (@ForeachPackage_order FlakyStore flaky (list string)
                    (store, ["db"]) fn [] ["app"] [[e1; e2]] Htotal
                    ltac:(repeat constructor)) "db" [] (External "i/o error"));
      reflexivity.
Defined.

End IterationExamples.

Section LookupExamples.
Import pack enumeration reference.
Local Existing Instance zero.

Lemma FindConfigPackage_store_error_witness :
  let web := locator "app" "web" "1.0.0" in
  let other := locator "app" "mail" "1.0.0" in
  let conf := envelope (locator "app" "web-config" "1.0.0") [("config", "app/web:0.0.0")] in
  let store : FlakyStore := ([("app", [conf]); ("db", [])], ["db"]) in
  FindConfigPackage (H := flaky) store web = Err (External "i/o error") /\
  FindConfigPackage (H := flaky) store other =
    Err (NotFound "no configuration package for %v found" ["app/mail:1.0.0"]) /\
  FindConfigPackage (H := failing ENOENT) store web =
    Err (NotFound "no configuration package for %v found" ["app/web:1.0.0"]).
Proof.
  intros web other conf store.
  assert (Hall : allPackages (H := flaky) store = ([conf], Some (External "i/o error")))
    by (vm_compute; reflexivity).
  assert (Hgone : allPackages (H := failing ENOENT) store = ([conf], Some ENOENT))
    by (vm_compute; reflexivity).
  split; [|split].
  - apply (proj2 (@FindConfigPackage_store_error FlakyStore flaky zero
                    store web [conf] (External "i/o error") Hall)).
    + apply Exists_cons_hd. by vm_compute.
    + reflexivity.
  - apply (proj1 (@FindConfigPackage_store_error FlakyStore flaky zero
                    store other [conf] (External "i/o error") Hall)).
    left. constructor; [by vm_compute|constructor].
  - apply (proj1 (@FindConfigPackage_store_error FlakyStore (failing ENOENT) zero
                    store web [conf] ENOENT Hgone)).
    right. reflexivity.
Defined.

Lemma FindInstalledPackage_sound_witness :
  let old := envelope (locator "app" "web" "1.0.0") [] in
  let cur := envelope (locator "app" "web" "1.2.0") [("installed", "installed")] in
  let store : MemStore := [("app", [old; cur])] in
  loc.Repository (locator "app" "web" "1.2.0") = "app" /\
  loc.Name (locator "app" "web" "1.2.0") = "web" /\
  snd (allPackages (H := memory) store) = None /\
  exists e, e ∈ fst (allPackages (H := memory) store) /\
            Locator e = locator "app" "web" "1.2.0" /\
            HasLabel e InstalledLabel InstalledLabel = true.
Proof.
  intros old cur store.
  apply (@FindInstalledPackage_sound MemStore memory store
           (locator "app" "web" "0.0.0") (locator "app" "web" "1.2.0")).
  by vm_compute.
Defined.

Lemma FindInstalledPackageWithConfig_Ok_witness :
  let cur := envelope (locator "app" "web" "1.2.0") [("installed", "installed")] in
  let conf := envelope (locator "app" "web-config" "1.2.0") [("config", "app/web:0.0.0")] in
  let store : MemStore := [("app", [cur; conf])] in
  FindInstalledPackage (H := memory) store (locator "app" "web" "0.0.0") =
    Ok (locator "app" "web" "1.2.0") /\
  FindConfigPackage (H := memory) store (locator "app" "web" "0.0.0") =
    Ok (locator "app" "web-config" "1.2.0").
Proof.
  intros cur conf store.
  apply (@FindInstalledPackageWithConfig_Ok MemStore memory zero store
           (locator "app" "web" "0.0.0")).
  by vm_compute.
Defined.

Lemma ConfigLabels_owned_witness :
  let web := locator "app" "web" "1.0.0" in
  let conf := {| Locator := locator "app" "web-config" "1.0.0";
                 RuntimeLabels := ConfigLabels web "runtime" |} in
  HasLabel conf ConfigLabel "app/web:0.0.0" = true /\
  HasLabel conf PurposeLabel "runtime" = true.
Proof.
  intros web conf.
  exact (proj2 (@ConfigLabels_owned zero web "runtime") conf eq_refl).
Defined.

End LookupExamples.

Section LatestGeneralExamples.
Import pack enumeration reference.
Local Existing Instance memory.
Local Existing Instance numeric.

Lemma FindLatestPackagePredicate_found_witness :
  let e1 := envelope (locator "app" "web" "1.0.0") [] in
  let e2 := envelope (locator "app" "db" "3.0.0") [] in
  let store : MemStore := [("app", [e1; e2])] in
  let web := fun e => bool_decide (loc.Name (Locator e) = "web") in
  let mail := fun e => bool_decide (loc.Name (Locator e) = "mail") in
  FindLatestPackagePredicate store "app" mail =
    Err (NotFound "latest package not found" []) /\
  exists e, e ∈ [e1; e2] /\ web e = true /\
            FindLatestPackagePredicate store "app" web = Ok (Locator e).
Proof.
  intros e1 e2 store web mail.
  assert (Hscan : scanned store "app" = ([e1; e2], None)) by reflexivity.
  split.
  - destruct (@FindLatestPackagePredicate_found MemStore memory numeric
                store "app" mail [e1; e2] Hscan) as [[_ Hnone]|(e & _ & _ & Hsome)].
    + exact Hnone.
    + discriminate Hsome.
  - destruct (@FindLatestPackagePredicate_found MemStore memory numeric
                store "app" web [e1; e2] Hscan) as [[_ Hnone]|Hsome].
    + discriminate Hnone.
    + exact Hsome.
Defined.

Lemma FindLatestPackagePredicate_maximal_witness :
  let e1 := envelope (locator "app" "web" "1.2.0") [] in
  let e2 := envelope (locator "app" "web" "1.10.0") [] in
  let e3 := envelope (locator "app" "web" "1.10.0") [("purpose", "copy")] in
  let e4 := envelope (locator "app" "web" "1.9.9") [] in
  let store : MemStore := [("app", [e1; e2; e3; e4])] in
  exists c, loc.SemVer (locator "app" "web" "1.10.0") = Ok c /\
    forall e v, e ∈ [e1; e2; e3; e4] -> true = true ->
                loc.SemVer (Locator e) = Ok v -> (semver.Compare v c <= 0)%Z.
Proof.
  intros e1 e2 e3 e4 store.
  apply (@FindLatestPackagePredicate_maximal MemStore memory numeric
           numeric_laws numeric_total store "app" (fun _ => true)
           [e1; e2; e3; e4] (locator "app" "web" "1.10.0")).
  - by vm_compute.
  - repeat constructor; intros _; eexists; reflexivity.
  - by vm_compute.
Defined.

Lemma FindLatestPackagePredicate_first_wins_witness :
  let mail := envelope (locator "app" "mail" "3.0.0") [] in
  let e1 := envelope (locator "app" "web" "1.10.0") [] in
  let db := envelope (locator "app" "db" "9.0.0") [] in
  let e2 := envelope (locator "ops" "web" "1.10.0") [] in
  let e3 := envelope (locator "ops" "web" "broken") [] in
  let e4 := envelope (locator "ops" "web" "1.9.9") [] in
  let store : MemStore := [("app", [mail; e1; db]); ("ops", [e2; e3; e4])] in
  Locator e1 <> Locator e2 /\
  FindLatestPackagePredicate store ""
    (fun e => bool_decide (loc.Name (Locator e) = "web")) = Ok (locator "app" "web" "1.10.0").
Proof.
  intros mail e1 db e2 e3 e4 store. split; [discriminate|].
  apply (@FindLatestPackagePredicate_first_wins MemStore memory numeric
           store "" _ [mail] e1 [db; e2; e3; e4]
           {| Major := 1; Minor := 10; Patch := 0 |}).
  - by vm_compute.
  - repeat constructor.
  - reflexivity.
  - reflexivity.
  - repeat constructor; intros Hacc v Hv; vm_compute in Hacc, Hv;
      try discriminate Hacc; try discriminate Hv; injection Hv as <-; by vm_compute.
Defined.

Lemma FindLatestPackage_line_witness :
  let e1 := envelope (locator "app" "web" "1.0.0") [] in
  let e2 := envelope (locator "app" "web" "1.2.0") [] in
  let store : MemStore := [("app", [e1; e2])] in
  (loc.Repository (locator "app" "web" "1.2.0") = "app" /\
   loc.Name (locator "app" "web" "1.2.0") = "web") /\
  loc.Name (locator "app" "web" "1.2.0") = "web".
Proof.
  intros e1 e2 store.
  destruct (@FindLatestPackage_line MemStore memory numeric store
              (locator "app" "web" "0.0.0") (locator "app" "web" "1.2.0") "web")
    as [Hline Hname].
  split; [apply Hline | apply Hname]; by vm_compute.
Defined.

Lemma FindLatestPackage_empty_repository_witness :
  let e1 := envelope (locator "app" "web" "1.0.0") [] in
  let e2 := envelope (locator "ops" "web" "1.2.0") [] in
  let store : MemStore := [("app", [e1]); ("ops", [e2])] in
  FindLatestPackage store (locator "" "web" "0.0.0") =
    Err (NotFound "latest package with filter %v not found" ["/web:0.0.0"]).
Proof.
  intros e1 e2 store.
  apply (@FindLatestPackage_empty_repository MemStore memory numeric store
           (locator "" "web" "0.0.0") [e1; e2]).
  - reflexivity.
  - by vm_compute.
  - repeat constructor; discriminate.
Defined.

Lemma FindPackageUpdate_checks_witness :
  let e1 := envelope (locator "app" "web" "1.0.0") [] in
  let e2 := envelope (locator "app" "web" "1.2.0") [] in
  let store : MemStore := [("app", [e1; e2])] in
  CheckUpdatePackage (locator "app" "web" "1.0.0") (locator "app" "web" "1.2.0") = None.
Proof.
  intros e1 e2 store.
  apply (@FindPackageUpdate_checks MemStore memory numeric numeric_laws store
           (locator "app" "web" "1.0.0")
           {| storage.From := locator "app" "web" "1.0.0";
              storage.To := locator "app" "web" "1.2.0" |}).
  by vm_compute.
Defined.

Lemma FindPackageUpdate_iff_newer_witness :
  let e1 := envelope (locator "app" "web" "1.0.0") [] in
  let e2 := envelope (locator "app" "web" "1.2.0") [] in
  let e3 := envelope (locator "app" "db" "broken") [] in
  let store : MemStore := [("app", [e1; e2; e3])] in
  (exists u, FindPackageUpdate store (locator "app" "web" "1.0.0") = Ok u) /\
  ~ (exists u, FindPackageUpdate store (locator "app" "web" "1.2.0") = Ok u).
Proof.
  intros e1 e2 e3 store.
  assert (Hscan : scanned store "app" = ([e1; e2; e3], None)) by reflexivity.
  assert (Hparse : forall pkg,
    loc.Repository pkg = "app" -> loc.Name pkg = "web" ->
    Forall (fun e =>
              bool_decide (loc.Repository (Locator e) = loc.Repository pkg)
              && bool_decide (loc.Name (Locator e) = loc.Name pkg) = true ->
              exists v, loc.SemVer (Locator e) = Ok v) [e1; e2; e3]).
  { intros pkg -> ->. repeat constructor; try (intros _; eexists; reflexivity).
    intros Hline. vm_compute in Hline. discriminate. }
  split.
  - apply (proj1 (@FindPackageUpdate_iff_newer MemStore memory numeric
                    numeric_laws numeric_total store (locator "app" "web" "1.0.0")
                    [e1; e2; e3] {| Major := 1; Minor := 0; Patch := 0 |}
                    Hscan eq_refl
                    (Hparse (locator "app" "web" "1.0.0") eq_refl eq_refl))).
    exists e2, {| Major := 1; Minor := 2; Patch := 0 |}.
    split; [|by vm_compute].
    apply list_elem_of_further, list_elem_of_here.
  - intros Hupdate.
    apply (proj1 (@FindPackageUpdate_iff_newer MemStore memory numeric
                    numeric_laws numeric_total store (locator "app" "web" "1.2.0")
                    [e1; e2; e3] {| Major := 1; Minor := 2; Patch := 0 |}
                    Hscan eq_refl
                    (Hparse (locator "app" "web" "1.2.0") eq_refl eq_refl))) in Hupdate.
    destruct Hupdate as (e & v & He & Hline & Hv & Hgt).
    repeat (apply elem_of_cons in He as [->|He]);
      [| | |by apply elem_of_nil in He];
      vm_compute in Hv; try discriminate Hv; injection Hv as <-;
      vm_compute in Hgt; discriminate Hgt.
Defined.

End LatestGeneralExamples.

Section NewerGeneralExamples.
Import pack enumeration reference.
Local Existing Instance memory.

Lemma FindNewerPackages_all_witness :
  let e1 := envelope (locator "app" "web" "2.1.0") [] in
  let e2 := envelope (locator "app" "web" "1.0.0") [] in
  let e3 := envelope (locator "app" "db" "broken") [] in
  let e4 := envelope (locator "app" "web" "2.0.0") [] in
  let store : MemStore := [("app", [e1; e2; e3; e4])] in
  FindNewerPackages (H0 := numeric) store (locator "app" "web" "1.5.0") =
    Ok [locator "app" "web" "2.1.0"; locator "app" "web" "2.0.0"].
Proof.
  intros e1 e2 e3 e4 store.
  apply (@FindNewerPackages_all MemStore memory numeric store
           (locator "app" "web" "1.5.0") [e1; e2; e3; e4]
           {| Major := 1; Minor := 5; Patch := 0 |}).
  - reflexivity.
  - reflexivity.
  - repeat constructor; try (intros _; eexists; reflexivity).
    intros Hname. discriminate Hname.
Defined.

Lemma FindNewerPackages_no_name_witness :
  let e1 := envelope (locator "app" "db" "2.1.0") [] in
  let store : MemStore := [("app", [e1])] in
  loc.SemVer (H := numeric) (locator "app" "web" "latest") =
    Err (External "latest is not in dotted-tri format") /\
  FindNewerPackages (H0 := numeric) store (locator "app" "web" "latest") = Ok [].
Proof.
  intros e1 store. split; [reflexivity|].
  apply (@FindNewerPackages_no_name MemStore memory numeric store
           (locator "app" "web" "latest") [e1]).
  - reflexivity.
  - repeat constructor. discriminate.
Defined.

Lemma FindPackageUpdate_in_newer_witness :
  let e1 := envelope (locator "app" "web" "1.0.0") [] in
  let e2 := envelope (locator "app" "web" "1.2.0") [] in
  let e3 := envelope (locator "app" "web" "1.1.0") [] in
  let store : MemStore := [("app", [e1; e2; e3])] in
  exists newer,
    FindNewerPackages (H0 := numeric) store (locator "app" "web" "1.0.0") = Ok newer /\
    locator "app" "web" "1.2.0" ∈ newer.
Proof.
  intros e1 e2 e3 store.
  apply (@FindPackageUpdate_in_newer MemStore memory numeric store
           (locator "app" "web" "1.0.0") [e1; e2; e3]
           {| storage.From := locator "app" "web" "1.0.0";
              storage.To := locator "app" "web" "1.2.0" |}).
  - discriminate.
  - reflexivity.
  - repeat constructor; intros _; eexists; reflexivity.
  - by vm_compute.
Defined.

Lemma ProcessMetadata_line_witness :
  let e1 := envelope (locator "app" "web" "1.0.0") [] in
  let e2 := envelope (locator "app" "web" "1.2.0") [] in
  let store : MemStore := [("app", [e1; e2])] in
  @ProcessMetadata MemStore memory tagged taggedMetadata
    store (locator "app" "web" "0.0.0+latest") = Ok (locator "app" "web" "1.2.0") /\
  loc.Repository (locator "app" "web" "1.2.0") = "app" /\
  loc.Name (locator "app" "web" "1.2.0") = "web".
Proof.
  intros e1 e2 store.
  assert (Hlatest : @ProcessMetadata MemStore memory tagged taggedMetadata
                      store (locator "app" "web" "0.0.0+latest") =
                    Ok (locator "app" "web" "1.2.0")) by (by vm_compute).
  split; [exact Hlatest|].
  exact (@ProcessMetadata_line MemStore memory tagged taggedMetadata store
           (locator "app" "web" "0.0.0+latest") (locator "app" "web" "1.2.0") Hlatest).
Defined.

End NewerGeneralExamples.

Section ManifestExamples.
Import pack enumeration reference.
Local Existing Instance memory.
Local Existing Instance plain.

Lemma GetConfigPackage_manifest_witness :
  let web := locator "app" "web" "1.0.0" in
  let conf := locator "app" "web-config" "1.0.0" in
  let store : MemStore := [("app", [envelope web []])] in
  (exists manifest parsed,
      GetPackageManifest store web = Ok manifest /\
      ConfigIsNil manifest = false /\
      ParseArgs manifest ["--port=80"] = Ok parsed /\
      WriteConfigPackage parsed = Ok []) /\
  GetConfigPackage store conf conf ["--port=80"] =
    Err (NotFound "package %v not found" ["app/web-config:1.0.0"]).
Proof.
  intros web conf store. split.
  - apply (proj1 (@GetConfigPackage_manifest MemStore memory plain
                    store web conf ["--port=80"])).
    reflexivity.
  - apply (proj2 (@GetConfigPackage_manifest MemStore memory plain
                    store conf conf ["--port=80"])).
    reflexivity.
Defined.

End ManifestExamples.

Section UnpackGeneralExamples.
Import pack enumeration reference.
Local Existing Instance memory.
Local Existing Instance dirs.

Lemma UnpackIfNotUnpacked_after_failure_witness :
  let web := locator "app" "web" "1.0.0" in
  let store : MemStore := [("app", [])] in
  UnpackIfNotUnpacked store web "/opt/web" None [] =
    (["/opt/web"],
     [CallStat "/opt/web"; CallMkdirAll "/opt/web"; CallReadPackage web],
     Err (NotFound "package %v not found" ["app/web:1.0.0"])) /\
  UnpackIfNotUnpacked store web "/opt/web" None ["/opt/web"] =
    (["/opt/web"], [CallStat "/opt/web"], Ok tt).
Proof.
  intros web store.
  assert (Hfirst : UnpackIfNotUnpacked store web "/opt/web" None [] =
            (["/opt/web"],
             [CallStat "/opt/web"; CallMkdirAll "/opt/web"; CallReadPackage web],
             Err (NotFound "package %v not found" ["app/web:1.0.0"])))
    by (by vm_compute).
  split; [exact Hfirst|].
  apply (@UnpackIfNotUnpacked_after_failure MemStore Dirs memory dirs dirs_laws
           store web "/opt/web" None [] ["/opt/web"] _ _ ltac:(discriminate) Hfirst).
  apply list_elem_of_further, list_elem_of_further, list_elem_of_here.
Defined.


End UnpackGeneralExamples.

Section DispatchGeneralExamples.
Import update reference.
Local Existing Instance named.

Lemma fsmSpec_Ok_witness :
  let p := ("operation_update", ("/masters/node-1/drain", "drain_node")) in
  Executor (Phase p) <> "" /\
  OperationType (Plan p) = OperationUpdate /\
  Executor (Phase p) ∈ vocabulary /\
  (Executor (Phase p), Ok "NewPhaseDrain") ∈ constructors tt p tt.
Proof.
  intros p.
  apply (@fsmSpec_Ok named tt p tt "NewPhaseDrain"). reflexivity.
Defined.

Lemma fsmSpec_remote_witness :
  let checks := ("operation_update", ("/checks", "update_checks")) in
  let bootstrap := ("operation_update", ("/bootstrap", "update_bootstrap")) in
  "node-1" <> "node-2" /\
  fsmSpec (H := remoted) "local" checks "node-1" =
    fsmSpec (H := remoted) "local" checks "node-2" /\
  fsmSpec (H := remoted) "local" checks "node-1" = Ok ("NewUpdatePhaseChecks", "local") /\
  fsmSpec (H := remoted) "local" bootstrap "node-1" <>
    fsmSpec (H := remoted) "local" bootstrap "node-2".
Proof.
  intros checks bootstrap.
  split; [discriminate|]. split; [|split; [reflexivity|discriminate]].
  apply (@fsmSpec_remote remoted "local" checks "node-1" "node-2").
  intros Hin. repeat (apply elem_of_cons in Hin as [Hin|Hin]; [discriminate|]).
  by apply elem_of_nil in Hin.
Defined.

End DispatchGeneralExamples.

(** ** Update validation as an order *)
Section UpdateOrder.
Context `{semver.Lib}.

Lemma CheckUpdatePackage_None (from to : loc.Locator) :
  pack.CheckUpdatePackage from to = None <->
  loc.Repository from = loc.Repository to /\
  loc.Name from = loc.Name to /\
  exists fromVer toVer,
    loc.SemVer from = Ok fromVer /\ loc.SemVer to = Ok toVer /\
    (semver.Compare fromVer toVer < 0)%Z.
Proof.
  unfold pack.CheckUpdatePackage, semver.LessThan.
  destruct (decide (loc.Repository from = loc.Repository to)) as [Hr|Hr];
    destruct (decide (loc.Name from = loc.Name to)) as [Hn|Hn];
    repeat case_bool_decide; simpl; try tauto;
    try (split; [discriminate|tauto]).
  destruct (loc.SemVer from) as [fv|]; [|split; [discriminate|]].
  - destruct (loc.SemVer to) as [tv|]; [|split; [discriminate|]].
    + destruct (Z.ltb_spec (semver.Compare fv tv) 0); simpl.
      * split; [|done]. intros _. repeat split; [done..|]. by exists fv, tv.
      * split; [discriminate|]. intros (_ & _ & fv' & tv' & [= <-] & [= <-] & Hlt). lia.
    + by intros (_ & _ & fv' & tv' & _ & Htv & _).
  - by intros (_ & _ & fv' & tv' & Hfv & _).
Qed.

(** X23.  Accepted updates form a strict order on a line: when
    [CheckUpdatePackage] accepts the update from [a] to [b], it rejects the
    reverse update with a BadParameter error, and accepts the update from
    [a] to every [c] that it accepts from [b]. *)
Theorem CheckUpdatePackage_order `{!semver.Laws} (a b c : loc.Locator) :
  pack.CheckUpdatePackage a b = None ->
  (exists format args,
      pack.CheckUpdatePackage b a = Some (BadParameter format args)) /\
  (pack.CheckUpdatePackage b c = None -> pack.CheckUpdatePackage a c = None).
Proof.
  intros Hab.
  apply CheckUpdatePackage_None in Hab as (Hr & Hn & va & vb & Ha & Hb & Hlt).
  split.
  - unfold pack.CheckUpdatePackage, semver.LessThan.
    rewrite !bool_decide_false by (intros Hne; by apply Hne). simpl.
    rewrite Ha, Hb.
    apply semver.Compare_flip in Hlt.
    destruct (Z.ltb_spec (semver.Compare vb va) 0); [lia|]. simpl. eauto.
  - intros Hbc.
    apply CheckUpdatePackage_None in Hbc as (Hr' & Hn' & vb' & vc & Hb' & Hc & Hlt').
    rewrite Hb in Hb'. injection Hb' as <-.
    apply CheckUpdatePackage_None. repeat split; [congruence..|].
    exists va, vc. repeat split; [done..|].
    by apply (semver.Compare_trans va vb vc).
Qed.

End UpdateOrder.

Section UpdateOrderExamples.
Import pack reference.

Lemma CheckUpdatePackage_order_witness :
  (exists format args,
      CheckUpdatePackage (H0 := numeric)
        (locator "app" "web" "1.2.0") (locator "app" "web" "1.0.0") =
        Some (BadParameter format args)) /\
  CheckUpdatePackage (H0 := numeric)
    (locator "app" "web" "1.0.0") (locator "app" "web" "2.0.0") = None.
Proof.
  destruct (@CheckUpdatePackage_order numeric numeric_laws
              (locator "app" "web" "1.0.0") (locator "app" "web" "1.2.0")
              (locator "app" "web" "2.0.0") eq_refl) as [Hrev Htrans].
  split; [exact Hrev|]. apply Htrans. reflexivity.
Defined.

End UpdateOrderExamples.
